(** * visual.py: merging, moving averages, yearly counts and bucketed pies

    A shallow embedding of the four routines of [src/visual.py] and the
    properties stated about them.

    The routines are thin orchestration over pandas and matplotlib, so the
    embedding has three layers:
    - the data model: cells, series, tables, Python exceptions;
    - the pandas primitives the source calls ([df[c]], [df[c] = s],
      [rename], [pd.merge(on="year")], [rolling(window).mean()],
      [value_counts], [sort_index], boolean masks), each with the defaults
      the source relies on;
    - the four functions of the source, written call by call.

    A finite number is held by its exact value, a rational ([Qc]): every
    int64 and every finite float64 is one. What float64 arithmetic does
    with such values (conversion of an integer, the rounded mean of a
    window, the rounded quotient of two counts) is not computed here: it is
    the interface [Float64], and every property holds for every
    implementation of it. [Inf] is a float64 infinity and [NaN] the missing
    value. *)

From Stdlib Require Import QArith Qcanon.
From stdpp Require Import base numbers list strings gmap sorting.

Local Open Scope string_scope.
Local Open Scope Z_scope.
Local Open Scope list_scope.

(** ** Data model *)

(** A cell of a table: a finite number, a float64 infinity, a piece of
    text, or the missing value. *)
Inductive value :=
  | Num (q : Qc)
  | Inf (negative : bool)
  | Str (s : string)
  | NaN.

#[export] Instance value_eq_dec : EqDecision value.
Proof. solve_decision. Defined.

(** A series is one column of cells; rows are indexed by position. *)
Abbreviation Series := (list value).

(** A table is an ordered collection of labelled columns. Labels may repeat
    (pandas allows it, and [rename] can produce it), hence an association
    list. *)
Abbreviation DataFrame := (list (string * Series)).

(** The exceptions the modelled calls can raise. *)
Inductive error :=
  | KeyError (label : string)
  | IndexError
  | ValueError
  | TypeError
  | OverflowError
  | DataError
  | MergeError
  | OSError.

Inductive result (A : Type) :=
  | Ok (a : A)
  | Raise (e : error).
Arguments Ok {A} a.
Arguments Raise {A} e.

Definition int (z : Z) : value := Num (Qc_of_Z z).

Definition isna (v : value) : bool :=
  match v with NaN => true | _ => false end.

Definition is_text (v : value) : bool :=
  match v with Str _ => true | _ => false end.

(** A series pandas would hold with a numeric dtype. *)
Definition numeric (s : Series) : Prop := Forall (λ v, is_text v = false) s.

(** ** Tables *)

Definition labels (t : DataFrame) : list string := t.*1.

(** Row count of a table, read off its first column. *)
Definition nrows (t : DataFrame) : nat :=
  match t with
  | [] => 0%nat
  | (_, s) :: _ => length s
  end.

(** Every column of a table has the table's row count. *)
Definition rectangular (t : DataFrame) : Prop :=
  Forall (λ c, length c.2 = nrows t) t.

(** [t[c]] as a lookup: the column labelled [c]. Under a repeated label
    pandas hands out all the columns of that label; the lookup gives the
    first of them, and the properties that depend on the difference are
    stated for tables with distinct labels. *)
Fixpoint get_col (c : string) (t : DataFrame) : option Series :=
  match t with
  | [] => None
  | (l, s) :: t' => if decide (l = c) then Some s else get_col c t'
  end.

(** [t[c]]: raises [KeyError] when no column has the label. *)
Definition getitem (c : string) (t : DataFrame) : result Series :=
  match get_col c t with
  | Some s => Ok s
  | None => Raise (KeyError c)
  end.

(** [t[c] = s]: replaces the column(s) labelled [c], or appends a new
    column at the end when the label is new. *)
Definition setitem (c : string) (s : Series) (t : DataFrame) : DataFrame :=
  if decide (c ∈ labels t)
  then (λ p : string * Series, if decide (p.1 = c) then (p.1, s) else p) <$> t
  else t ++ [(c, s)].

(** ** Float64 arithmetic

    The three places where the source computes in float64, as operations
    on exact values. Nothing is assumed about them. *)
Class Float64 := {
  (** the float64 a finite cell becomes when its column is converted to
      float64 (an integer cell is rounded, a float64 cell is itself) *)
  to_float64 : Qc → Qc;
  (** the cell pandas' running compensated sum and division give at row
      [i] for window [w] on a prepared column *)
  kahan_mean : Series → nat → nat → value;
  (** the float64 quotient of two int64 counts *)
  float_quotient : Z → Z → Qc
}.

(** ** Rolling mean

    [Series.rolling(window=w).mean()] with pandas' defaults: a fixed
    trailing window closed on the right, [min_periods = w], missing cells
    not counted as observations. *)

(** The column as the window functions receive it: converted to float64,
    with an infinity read as missing. *)
Definition prep_cell `{Float64} (v : value) : value :=
  match v with
  | Num q => Num (to_float64 q)
  | _ => NaN
  end.

Definition observations (s : Series) : list Qc :=
  omap (λ v, match v with Num q => Some q | _ => None end) s.

(** The window ending at row [i]: rows [max 0 (i+1-w) .. i]. *)
Definition window_at (w i : nat) (s : Series) : Series :=
  drop (i + 1 - w) (take (i + 1) s).

(** The observations of a window are all the same number [x]. *)
Definition all_same (x : Qc) (obs : list Qc) : Prop :=
  Forall (λ y, y = x) obs.

(** The mean at row [i] of the prepared column [values]: missing unless
    the window holds at least [minp] observations, and at least one; the
    observation itself when all the observations of the window are equal
    (pandas keeps the run length of equal values to return such a mean
    exactly); the rounded mean otherwise. *)
Definition calc_mean `{Float64} (minp w i : nat) (values : Series) : value :=
  let obs := observations (window_at w i values) in
  if decide (minp ≤ length obs ∧ 0 < length obs)%nat
  then match last obs with
       | Some x => if decide (all_same x obs) then Num x
                   else kahan_mean values w i
       | None => NaN
       end
  else NaN.

Definition roll_mean `{Float64} (w : nat) (s : Series) : Series :=
  let values := prep_cell <$> s in
  imap (λ i _, calc_mean w w i values) values.

(** [s.rolling(window=window).mean()]: a negative window is rejected when
    the rolling object is built, a text column when the mean is taken, and
    a window that does not fit a 64-bit integer when the window bounds are
    computed, which happens only for a column that has rows. *)
Definition rolling_mean `{Float64} (window : Z) (s : Series)
  : result Series :=
  if decide (window < 0) then Raise ValueError
  else if existsb is_text s then Raise DataError
  else if decide (s ≠ [] ∧ 2 ^ 63 ≤ window) then Raise OverflowError
  else Ok (roll_mean (Z.to_nat window) s).

(** ** The interpreter state

    Tables are Python objects: a function that receives a table receives a
    reference to it, and [df[c] = s] updates the object the caller also
    holds. The state is the object store together with the calls made to
    [matplotlib.pyplot], in order. *)

Abbreviation loc := nat.

Inductive plt_call :=
  | plot (x y : Series) (label : string)
  | bar (x : list value) (height : list Z)
  | pie (x : list Z) (pie_labels : list value)
  | figure
  | title (s : string)
  | xlabel (s : string)
  | ylabel (s : string)
  | legend (s : string)
  | xticks (ticks : list value)
  | tight_layout
  | axis (s : string)
  | show.

Record world := World {
  objects : gmap loc DataFrame;
  canvas : list plt_call
}.

(** Computations that read and update the state and may raise. What was
    done before an exception stays done. *)
Definition M (A : Type) : Type := world → result A * world.

#[export] Instance M_ret : MRet M := λ A a w, (Ok a, w).

#[export] Instance M_bind : MBind M := λ A B k m w,
  match m w with
  | (Ok a, w') => k a w'
  | (Raise e, w') => (Raise e, w')
  end.

Definition lift {A} (r : result A) : M A := λ w, (r, w).

(** Dereference a table. Python references never dangle; the error branch
    only makes [load] total. *)
Definition load (df : loc) : M DataFrame :=
  λ w, match objects w !! df with
       | Some t => (Ok t, w)
       | None => (Raise ValueError, w)
       end.

Definition store (df : loc) (t : DataFrame) : M unit :=
  λ w, (Ok tt, World (<[df := t]> (objects w)) (canvas w)).

(** [df[c]] on a reference. *)
Definition df_getitem (df : loc) (c : string) : M Series :=
  t ← load df; lift (getitem c t).

(** [df[c] = s] on a reference: the object itself is updated. *)
Definition df_setitem (df : loc) (c : string) (s : Series) : M unit :=
  t ← load df; store df (setitem c s t).

(** A call to [matplotlib.pyplot] that draws or sets up the figure: it is
    recorded on the canvas. *)
Definition plt (c : plt_call) : M unit :=
  λ w, (Ok tt, World (objects w) (canvas w ++ [c])).

(** [plt.pie(x, labels=...)]: with no slice at all matplotlib raises
    instead of drawing. *)
Definition plt_pie (x : list Z) (pie_labels : list value) : M unit :=
  match x with
  | [] => λ w, (Raise ValueError, w)
  | _ => plt (pie x pie_labels)
  end.

(** ** plot_moving_averages *)

(** The body of [for column in columns]. *)
Definition moving_average_step `{Float64} (df : loc) (window : Z)
    (column : string) : M unit :=
  s ← df_getitem df column;
  r ← lift (rolling_mean window s);
  df_setitem df column r;;
  x ← df_getitem df "year";
  y ← df_getitem df column;
  plt (plot x y column).

Fixpoint moving_average_loop `{Float64} (df : loc) (window : Z)
    (columns : list string) : M unit :=
  match columns with
  | [] => mret tt
  | column :: rest =>
      moving_average_step df window column;;
      moving_average_loop df window rest
  end.

Definition plot_moving_averages `{Float64} (df : loc)
    (columns : list string) (window : Z) (title_ xlabel_ ylabel_ : string)
  : M unit :=
  moving_average_loop df window columns;;
  plt (title title_);;
  plt (xlabel xlabel_);;
  plt (ylabel ylabel_);;
  plt (legend "upper left");;
  plt show.

(** The table a reference points to, as its holder sees it. *)
Definition table_of (w : world) (df : loc) : DataFrame :=
  default [] (objects w !! df).

(** ** Computations that only may raise *)

#[export] Instance result_ret : MRet result := λ A a, Ok a.

#[export] Instance result_bind : MBind result := λ A B k r,
  match r with
  | Ok a => k a
  | Raise e => Raise e
  end.

(** ** Table primitives used by the merge *)

(** [t[cs]] with a list of labels: the listed columns, in the listed
    order; [KeyError] at the first label the table lacks. *)
Fixpoint select (cs : list string) (t : DataFrame) : result DataFrame :=
  match cs with
  | [] => Ok []
  | c :: cs' =>
      s ← getitem c t;
      rest ← select cs' t;
      Ok ((c, s) :: rest)
  end.

(** [t.rename(columns={old: new})]. *)
Definition rename (old new : string) (t : DataFrame) : DataFrame :=
  (λ p : string * Series, if decide (p.1 = old) then (new, p.2) else p) <$> t.

(** Rows [idx] of a series, in the order of [idx]. *)
Definition take_rows (idx : list nat) (s : Series) : Series :=
  (λ i, default NaN (s !! i)) <$> idx.

(** Positions of the cells of [rk] equal to [x]. *)
Definition matches (x : value) (rk : Series) : list nat :=
  (imap (λ j y, (j, y)) rk) ≫= (λ p, if decide (p.2 = x) then [p.1] else []).

(** The row pairs of an inner join on equal keys: every left row with
    every right row holding the same key, in the order of the left rows.
    Missing keys match missing keys, as in pandas. *)
Definition join_pairs (lk rk : Series) : list (nat * nat) :=
  (imap (λ i x, (i, x)) lk) ≫= (λ p, (λ j, (p.1, j)) <$> matches p.2 rk).

(** For each label, whether it repeats an earlier one. *)
Fixpoint duplicated (seen l : list string) : list bool :=
  match l with
  | [] => []
  | x :: l' => bool_decide (x ∈ seen) :: duplicated (x :: seen) l'
  end.

(** A label is repeated after suffixing although it was not before. *)
Definition suffix_clash (before after : list string) : bool :=
  existsb (λ p : bool * bool, negb p.1 && p.2)
          (zip (duplicated [] before) (duplicated [] after)).

Definition add_suffix (overlap : list string) (sfx : string) (l : string)
  : string :=
  if decide (l ∈ overlap) then l +:+ sfx else l.

(** The dtype check of a merge on its two key columns: when both have
    rows, a key column of text cannot be merged with one of numbers. A
    column counts as text here when it holds a text cell. *)
Definition dtype_clash (lk rk : Series) : Prop :=
  lk ≠ [] ∧ rk ≠ [] ∧ existsb is_text lk ≠ existsb is_text rk.

#[export] Instance dtype_clash_dec lk rk : Decision (dtype_clash lk rk).
Proof. unfold dtype_clash. apply _. Defined.

(** [pd.merge(left, right, on=key)] with the defaults [how="inner"] and
    [suffixes=("_x", "_y")]. The key must label exactly one column on each
    side, and the two key columns must pass the dtype check. The result
    has the left columns, then the right columns other than the key; a
    label the two sides share outside the key gets the suffixes. *)
Definition pd_merge (left right : DataFrame) (key : string)
  : result DataFrame :=
  let count_key (t : DataFrame) := length (filter (λ l, l = key) (labels t)) in
  if decide (count_key left = 0%nat ∨ count_key right = 0%nat)
  then Raise (KeyError key)
  else if decide (count_key left ≠ 1%nat ∨ count_key right ≠ 1%nat)
  then Raise ValueError
  else
    lk ← getitem key left;
    rk ← getitem key right;
    if decide (dtype_clash lk rk)
    then Raise ValueError
    else
    let pairs := join_pairs lk rk in
    let lrest := filter (λ p : string * Series, p.1 ≠ key) left in
    let rrest := filter (λ p : string * Series, p.1 ≠ key) right in
    let overlap := filter (λ l, l ∈ labels rrest) (labels lrest) in
    if suffix_clash (labels lrest) (add_suffix overlap "_x" <$> labels lrest)
       || suffix_clash (labels rrest) (add_suffix overlap "_y" <$> labels rrest)
    then Raise MergeError
    else
      Ok (((λ p : string * Series,
              (if decide (p.1 = key) then p.1 else add_suffix overlap "_x" p.1,
               take_rows pairs.*1 p.2)) <$> left)
          ++ ((λ p : string * Series,
                 (add_suffix overlap "_y" p.1, take_rows pairs.*2 p.2))
                <$> rrest)).

(** ** merge_climate_data *)

Section Merge.

(** [pd.read_csv(url, skiprows=5, sep='\s+')]: the table behind a URL, or
    the exception raised when it cannot be fetched or parsed. *)
Variable read_csv : string → result DataFrame.

(** The loop over [zip(urls, columns)], building [dfs]. *)
Fixpoint load_sources (pairs : list (string * string))
  : result (list DataFrame) :=
  match pairs with
  | [] => Ok []
  | (url, column) :: rest =>
      df ← read_csv url;
      df ← select ["year"; "ann"] df;
      let df := rename "ann" column df in
      dfs ← load_sources rest;
      Ok (df :: dfs)
  end.

(** The loop over [dfs[1:]]. *)
Fixpoint merge_all (merged_df : DataFrame) (dfs : list DataFrame)
  : result DataFrame :=
  match dfs with
  | [] => Ok merged_df
  | df :: rest =>
      merged_df ← pd_merge merged_df df "year";
      merge_all merged_df rest
  end.

Definition merge_climate_data (urls columns : list string)
  : result DataFrame :=
  dfs ← load_sources (zip urls columns);
  match dfs with
  | [] => Raise IndexError
  | first :: rest => merge_all first rest
  end.

End Merge.

(** ** Counting and ordering *)

(** Number of rows of [s] holding [v]. *)
Definition count_of (v : value) (s : Series) : Z :=
  Z.of_nat (length (filter (λ x, x = v) s)).

(** The distinct values of a series, in order of first appearance. *)
Definition unique (s : Series) : list value :=
  reverse (remove_dups (reverse s)).

Definition more_frequent (a b : value * Z) : Prop := (b.2 ≤ a.2)%Z.

#[export] Instance more_frequent_dec : RelDecision more_frequent.
Proof. intros a b. unfold more_frequent. apply _. Defined.

(** Insertion into counts sorted from the largest: after the entries
    with a strictly larger count, before the others. *)
Fixpoint insert_count (p : value * Z) (l : list (value * Z))
  : list (value * Z) :=
  match l with
  | [] => [p]
  | q :: l' => if decide (p.2 < q.2) then q :: insert_count p l'
               else p :: q :: l'
  end.

(** A stable sort from the largest count to the smallest: entries with
    equal counts keep their order. *)
Definition sort_counts (l : list (value * Z)) : list (value * Z) :=
  foldr insert_count [] l.

(** [s.value_counts()] with the defaults [dropna=True], [sort=True],
    [ascending=False]: one entry per distinct non-missing value with the
    number of rows holding it, most frequent first, values with equal
    counts in order of first appearance. *)
Definition value_counts (s : Series) : list (value * Z) :=
  sort_counts
    ((λ v, (v, count_of v s)) <$> unique (filter (λ v, isna v = false) s)).

(** Order of a numeric index. *)
Definition index_le (a b : value * Z) : Prop :=
  match a.1, b.1 with
  | Num x, Num y => (x ≤ y)%Qc
  | _, _ => True
  end.

#[export] Instance index_le_dec : RelDecision index_le.
Proof.
  intros [[x| | |] ?] [[y| | |] ?]; unfold index_le; simpl; apply _.
Defined.

(** [counts.sort_index()] on counts keyed by numbers: ascending keys. *)
Definition sort_index (counts : list (value * Z)) : list (value * Z) :=
  merge_sort index_le counts.

Definition Z_sum (l : list Z) : Z := foldr Z.add 0 l.

(** [s > bound], element by element: false on a missing cell, true on
    plus infinity only, [TypeError] on text. *)
Fixpoint series_gt (s : Series) (bound : Z) : result (list bool) :=
  match s with
  | [] => Ok []
  | v :: s' =>
      b ← match v with
          | Num q => Ok (bool_decide (Qc_of_Z bound < q)%Qc)
          | Inf negative => Ok (negb negative)
          | NaN => Ok false
          | Str _ => Raise TypeError
          end;
      bs ← series_gt s' bound;
      Ok (b :: bs)
  end.

(** Rows of a series selected by a boolean mask. *)
Definition mask_rows {A} (mask : list bool) (s : list A) : list A :=
  (filter (λ p : bool * A, p.1 = true) (zip mask s)).*2.

(** [t[mask]]: the rows of the table where the mask holds. *)
Definition mask_table (mask : list bool) (t : DataFrame) : DataFrame :=
  (λ p : string * Series, (p.1, mask_rows mask p.2)) <$> t.

(** ** plot_unclaimed_estates and plot_marital_status_distribution *)

Record datetime := Datetime { year : Z; month : Z; day : Z }.

Section Estates.

(** [pd.read_csv(file_path, encoding='ISO-8859-1')]. *)
Variable read_csv : string → result DataFrame.

(** How pandas reads one non-missing cell as a date under a format:
    the date when the cell matches the format, nothing when it does
    not. *)
Variable strptime : string → value → option datetime.

(** [pd.to_datetime(s, format=format)] with the default
    [errors="raise"]: a missing cell becomes the missing date, a cell
    that does not match the format raises. *)
Fixpoint to_datetime (s : Series) (format : string)
  : result (list (option datetime)) :=
  match s with
  | [] => Ok []
  | v :: s' =>
      d ← (if isna v then Ok None
           else match strptime format v with
                | Some d => Ok (Some d)
                | None => Raise ValueError
                end);
      ds ← to_datetime s' format;
      Ok (d :: ds)
  end.

(** [.dt.year]: the year of each date, missing for a missing date. *)
Definition dt_year (ds : list (option datetime)) : Series :=
  (λ d, match d with Some d => int (year d) | None => NaN end) <$> ds.

Definition plot_unclaimed_estates (file_path date_format : string)
  : M unit :=
  data ← lift (read_csv file_path);
  dates ← lift (getitem "Date of Death" data);
  parsed ← lift (to_datetime dates date_format);
  let data := setitem "Year of Death" (dt_year parsed) data in
  years ← lift (getitem "Year of Death" data);
  mask ← lift (series_gt years 1999);
  let filtered_data := mask_table mask data in
  years ← lift (getitem "Year of Death" filtered_data);
  let yearly_counts := sort_index (value_counts years) in
  plt figure;;
  plt (bar yearly_counts.*1 yearly_counts.*2);;
  plt (xlabel "Unclaimed Year");;
  plt (ylabel "Count");;
  plt (title "Unclaimed House since 2000");;
  plt (xticks yearly_counts.*1);;
  plt tight_layout;;
  plt show.

(** The mask of [counts / counts.sum() < threshold]: the float64 quotient
    of a count by the total against the threshold, itself a float64. *)
Definition below_threshold `{Float64} (threshold : Qc) (total : Z)
    (p : value * Z) : Prop :=
  (float_quotient p.2 total < threshold)%Qc.

#[local] Instance below_threshold_dec `{Float64} threshold total p :
  Decision (below_threshold threshold total p).
Proof. unfold below_threshold. apply _. Defined.

Definition small_categories `{Float64} (threshold : Qc)
    (counts : list (value * Z)) : list value :=
  (filter (below_threshold threshold (Z_sum counts.*2)) counts).*1.

(** [lambda x: 'Other' if x in small_categories else x]. *)
Definition relabel (small : list value) (x : value) : value :=
  if decide (x ∈ small) then Str "Other" else x.

Definition plot_marital_status_distribution `{Float64} (file_path : string)
    (threshold : Qc) : M unit :=
  data ← lift (read_csv file_path);
  status ← lift (getitem "Marital Status" data);
  let marital_status_counts := value_counts status in
  let small := small_categories threshold marital_status_counts in
  status ← lift (getitem "Marital Status" data);
  let data := setitem "Marital Status" (relabel small <$> status) data in
  status ← lift (getitem "Marital Status" data);
  let marital_status_counts := value_counts status in
  plt figure;;
  plt_pie marital_status_counts.*2 marital_status_counts.*1;;
  plt (title "Distribution of Marital Status");;
  plt (axis "equal");;
  plt show.

End Estates.

(** ** Notions used to state the properties *)

(** One iteration, as a function of the table the reference points to. *)
Definition step_outcome `{Float64} (df : loc) (window : Z) (column : string)
    (w : world) (t : DataFrame) : result () * world :=
  match getitem column t with
  | Raise e => (Raise e, w)
  | Ok s =>
      match rolling_mean window s with
      | Raise e => (Raise e, w)
      | Ok r =>
          let t' := setitem column r t in
          let objects' := <[df := t']> (objects w) in
          match getitem "year" t' with
          | Raise e => (Raise e, World objects' (canvas w))
          | Ok x => (Ok (), World objects' (canvas w ++ [plot x r column]))
          end
      end
  end.

(** The key column of an inner join, spelled out: every left key, once
    for each right row holding the same key. *)
Definition joined_keys (lk rk : Series) : Series :=
  lk ≫= (λ x, replicate (length (matches x rk)) x).

Definition parse_cell (strptime : string → value → option datetime)
    (format : string) (v : value) : option datetime :=
  if isna v then None else strptime format v.

Definition after (bound : Z) (d : option datetime) : bool :=
  match d with
  | Some d => bool_decide (bound < year d)
  | None => false
  end.

(** The row's date is present, matches the format, and its year is
    strictly after [bound]. *)
Definition year_after (strptime : string → value → option datetime)
    (format : string) (bound : Z) (v : value) : bool :=
  match parse_cell strptime format v with
  | Some d => bool_decide (bound < year d)
  | None => false
  end.

(** The share of the rows of [s] holding [c], among the rows that are not
    missing, as the program computes it: the float64 quotient of the two
    counts. *)
Definition relative_frequency `{Float64} (c : value) (s : Series) : Qc :=
  float_quotient (count_of c s)
    (Z.of_nat (length (filter (λ v, isna v = false) s))).

(** [c] is a category of [s] whose share is strictly below the
    threshold. *)
Definition rare `{Float64} (threshold : Qc) (s : Series) (c : value)
  : Prop :=
  c ∈ s ∧ isna c = false ∧ (relative_frequency c s < threshold)%Qc.

#[export] Instance rare_dec `{Float64} threshold s c :
  Decision (rare threshold s c).
Proof. unfold rare. apply _. Defined.

(** ** Sample inputs *)

Definition Qc_sum (l : list Qc) : Qc := foldr Qcplus 0%Qc l.

(** An implementation of the float64 operations to run the samples with:
    exact arithmetic. On the samples below no rounding occurs, so float64
    gives the same cells. *)
Definition exact64 : Float64 := {|
  to_float64 := id;
  kahan_mean := λ values w i,
    let obs := observations (window_at w i values) in
    Num (Qc_sum obs / Qc_of_Z (Z.of_nat (length obs)))%Qc;
  float_quotient := λ a b, (Qc_of_Z a / Qc_of_Z b)%Qc
|}.

Definition climate : DataFrame :=
  [("year", [int 2000; int 2001; int 2002]);
   ("england", [int 9; int 10; int 11])].

Definition session : world := World {[ 0%nat := climate ]} [].

Definition england_src : DataFrame :=
  [("year", [int 2000; int 2001; int 2002]);
   ("win", [int 4; int 5; int 4]);
   ("ann", [int 9; int 10; int 11])].

Definition wales_src : DataFrame :=
  [("year", [int 2001; int 2002; int 2003]);
   ("ann", [int 8; int 9; int 10])].

(** Two sources in which the year 2000 is listed twice. *)
Definition north_src : DataFrame :=
  [("year", [int 2000; int 2000]); ("ann", [int 7; int 8])].

Definition south_src : DataFrame :=
  [("year", [int 2000; int 2000; int 2001]); ("ann", [int 11; int 12; int 13])].

Definition met_office (url : string) : result DataFrame :=
  if decide (url = "England.txt") then Ok england_src
  else if decide (url = "Wales.txt") then Ok wales_src
  else if decide (url = "North.txt") then Ok north_src
  else if decide (url = "South.txt") then Ok south_src
  else Raise OSError.

Definition register : DataFrame :=
  [("Date of Death", [Str "03/02/2001"; Str "17/11/1999"; NaN;
                      Str "25/12/2001"; Str "01/01/2000"]);
   ("Marital Status", [Str "Single"; Str "Widow"; NaN;
                       Str "Single"; Str "Single"])].

Definition damaged_register : DataFrame :=
  [("Date of Death", [Str "03/02/2001"; Str "unknown"])].

(** A register in which no row has a marital status. *)
Definition unmarried_register : DataFrame :=
  [("Date of Death", [Str "03/02/2001"; Str "17/11/1999"]);
   ("Marital Status", [NaN; NaN])].

Definition disk (file_path : string) : result DataFrame :=
  if decide (file_path = "UnclaimedEstatesList.csv") then Ok register
  else if decide (file_path = "Damaged.csv") then Ok damaged_register
  else if decide (file_path = "NoStatus.csv") then Ok unmarried_register
  else Raise OSError.

(** A reader of the dates that occur in the sample files. *)
Definition sample_strptime (format : string) (v : value) : option datetime :=
  if decide (format = "%d/%m/%Y") then
    if decide (v = Str "03/02/2001") then Some (Datetime 2001 2 3)
    else if decide (v = Str "17/11/1999") then Some (Datetime 1999 11 17)
    else if decide (v = Str "25/12/2001") then Some (Datetime 2001 12 25)
    else if decide (v = Str "01/01/2000") then Some (Datetime 2000 1 1)
    else None
  else None.

Definition blank : world := World ∅ [].

(** ** Further notions and sample inputs *)

(** The column [s] of a table with "year" column [K] is row-aligned with
    a source whose "year" and "ann" columns are [ys] and [vs]: it is as
    long as [K], and the value at each row is the source's "ann" value at
    a source row of the same year. *)
Definition aligned (K s ys vs : Series) : Prop :=
  length s = length K
  ∧ ∀ r y v, K !! r = Some y → s !! r = Some v →
             ∃ j, ys !! j = Some y ∧ vs !! j = Some v.

(** The table Merge builds from one pair: the "year" column of the
    source and its "ann" column under the target name. *)
Definition source_frame (src : string * (Series * Series)) : DataFrame :=
  [("year", src.2.1); (src.1, src.2.2)].

(** Target name, "year" column and "ann" column of the source of a
    pair. *)
Definition source_of (read_csv : string → result DataFrame)
    (p : string * string) : string * (Series * Series) :=
  match read_csv p.1 with
  | Ok t => (p.2, (default [] (get_col "year" t),
                   default [] (get_col "ann" t)))
  | Raise _ => (p.2, ([], []))
  end.

(** The year pandas reads in a cell of the date column, if the cell is
    present and matches the format. *)
Definition parsed_year (strptime : string → value → option datetime)
    (format : string) (v : value) : option Z :=
  year <$> parse_cell strptime format v.

(** Strictly ascending order of numeric index values. *)
Definition year_lt (a b : value) : Prop :=
  match a, b with
  | Num x, Num y => (x < y)%Qc
  | _, _ => False
  end.

(** The years that pass the filter, as integers. *)
Definition years_after (bound : Z) (ds : list (option datetime)) : list Z :=
  omap (λ d : option datetime,
          match d with
          | Some d => if bool_decide (bound < year d) then Some (year d)
                      else None
          | None => None
          end) ds.

(** ** main *)

(** Binding a newly built table to a name: the table becomes an object of
    the store, under a reference no object has yet. *)
Definition alloc (t : DataFrame) : M loc :=
  λ w, let df := fresh (dom (objects w)) in
       (Ok df, World (<[df := t]> (objects w)) (canvas w)).

Definition url_list : list string :=
  ["https://www.metoffice.gov.uk/pub/data/weather/uk/climate/datasets/Tmean/date/England.txt";
   "https://www.metoffice.gov.uk/pub/data/weather/uk/climate/datasets/Tmean/date/Wales.txt";
   "https://www.metoffice.gov.uk/pub/data/weather/uk/climate/datasets/Tmean/date/Scotland.txt";
   "https://www.metoffice.gov.uk/pub/data/weather/uk/climate/datasets/Tmean/date/Northern_Ireland.txt"].

Definition column_names : list string :=
  ["england"; "wales"; "scotland"; "northern"].

Definition columns_to_plot : list string :=
  ["england"; "scotland"; "wales"; "northern"].

(** The default threshold of [plot_marital_status_distribution]: the
    float64 of the literal [0.03]. *)
Definition default_threshold : Qc :=
  Q2Qc (1080863910568919 # 36028797018963968).

Section Main.

(** [pd.read_csv(url, skiprows=5, sep='\s+')] on a climate URL. *)
Variable read_url : string → result DataFrame.

(** [pd.read_csv(file_path, encoding='ISO-8859-1')] on a local file. *)
Variable read_file : string → result DataFrame.

(** How pandas reads one present cell as a date under a format. *)
Variable strptime : string → value → option datetime.

(** [main()], with the defaults of the functions it calls written out:
    a window of 20, the default title and axis labels, and the threshold
    0.03. *)
Definition main `{Float64} : M unit :=
  result_df ← lift (merge_climate_data read_url url_list column_names);
  result_df ← alloc result_df;
  plot_moving_averages result_df columns_to_plot 20
    "Rising Temperature" "Year" "Mean Temperature";;
  plot_unclaimed_estates read_file strptime
    "UnclaimedEstatesList.csv" "%d/%m/%Y";;
  plot_marital_status_distribution read_file
    "UnclaimedEstatesList.csv" default_threshold.

End Main.

(** The four climate sources, as small tables. *)
Definition uk_climate (url : string) : result DataFrame :=
  if decide (url ∈ url_list) then
    if decide (url = "https://www.metoffice.gov.uk/pub/data/weather/uk/climate/datasets/Tmean/date/England.txt")
    then Ok england_src else Ok wales_src
  else Raise OSError.


(** * Properties *)

(** ** Rolling mean *)

Section RollingMean.
Context {F64 : Float64}.


Lemma roll_mean_lookup w s i :
  roll_mean w s !! i
  = (λ _, calc_mean w w i (prep_cell <$> s)) <$> s !! i.
Proof.
  unfold roll_mean. rewrite list_lookup_imap, list_lookup_fmap.
  by destruct (s !! i).
Qed.




Lemma length_observations s : (length (observations s) ≤ length s)%nat.
Proof.
  induction s as [|[q|b|t|] s IH]; simpl; lia.
Qed.

Lemma last_replicate {A} (k : nat) (x : A) :
  (0 < k)%nat → last (replicate k x) = Some x.
Proof.
  induction k as [|[|k] IH]; intros Hk; [lia|done|].
  change (replicate (S (S k)) x) with (x :: replicate (S k) x).
  rewrite last_cons, IH by lia. done.
Qed.

(** The mean of a window holding [k] times the same number is that
    number. *)
Lemma calc_mean_same minp w i values k q :
  observations (window_at w i values) = replicate k q →
  (minp ≤ k)%nat → (0 < k)%nat → calc_mean minp w i values = Num q.
Proof.
  intros Hobs Hm Hk. unfold calc_mean. rewrite Hobs, length_replicate.
  rewrite decide_True by done. rewrite last_replicate by done.
  rewrite decide_True; [done|]. unfold all_same. by apply Forall_replicate.
Qed.

Lemma calc_mean_short minp w i values :
  (length (observations (window_at w i values)) < minp)%nat →
  calc_mean minp w i values = NaN.
Proof. intros H. unfold calc_mean. rewrite decide_False; [done|lia]. Qed.

Lemma existsb_is_text_false s : existsb is_text s = false ↔ numeric s.
Proof.
  unfold numeric. rewrite Forall_forall. split.
  - intros H v Hv. destruct (is_text v) eqn:E; [|done].
    assert (existsb is_text s = true); [|congruence].
    apply existsb_exists. exists v. split; [by apply list_elem_of_In|done].
  - intros H. destruct (existsb is_text s) eqn:E; [|done].
    apply existsb_exists in E as (v & Hv%list_elem_of_In & Ht).
    rewrite (H v Hv) in Ht. done.
Qed.

Lemma rolling_mean_Ok window s :
  0 ≤ window < 2 ^ 63 → numeric s →
  rolling_mean window s = Ok (roll_mean (Z.to_nat window) s).
Proof.
  intros Hw Hs. unfold rolling_mean.
  rewrite decide_False by lia.
  apply existsb_is_text_false in Hs. rewrite Hs.
  rewrite decide_False; [done|]. intros [_ ?]. lia.
Qed.

Lemma rolling_mean_inv window s r :
  rolling_mean window s = Ok r →
  0 ≤ window ∧ numeric s ∧ r = roll_mean (Z.to_nat window) s.
Proof.
  unfold rolling_mean. case_decide; [done|].
  destruct (existsb is_text s) eqn:E; [done|].
  case_decide; [done|].
  intros [= <-]. split; [lia|]. split; [by apply existsb_is_text_false|done].
Qed.

Lemma numeric_replicate n v : is_text v = false → numeric (replicate n v).
Proof. intros Hv. unfold numeric. by apply Forall_replicate. Qed.

(** A window the series cannot fill gives no defined mean anywhere. *)
Lemma roll_mean_wide w s :
  (length s < w)%nat → roll_mean w s = replicate (length s) NaN.
Proof.
  intros Hw. apply list_eq. intros i.
  rewrite roll_mean_lookup.
  destruct (s !! i) as [v|] eqn:Hi; simpl.
  - rewrite lookup_replicate_2 by (by eapply lookup_lt_Some).
    f_equal. apply calc_mean_short.
    eapply Nat.le_lt_trans; [apply length_observations|].
    unfold window_at. rewrite length_drop, length_take, length_fmap. lia.
  - symmetry. apply lookup_replicate_None. by apply lookup_ge_None.
Qed.


End RollingMean.

(** ** Reading and writing columns *)

Lemma get_col_elem_of c t s : get_col c t = Some s → (c, s) ∈ t.
Proof.
  induction t as [|[l s'] t IH]; simpl; [done|].
  case_decide as Hl.
  - intros [= ->]. subst. apply list_elem_of_here.
  - intros H. apply list_elem_of_further. auto.
Qed.

Lemma get_col_is_Some c t : is_Some (get_col c t) ↔ c ∈ labels t.
Proof.
  unfold labels. induction t as [|[l s'] t IH]; simpl.
  - split; [by intros [? ?]|by intros ?%elem_of_nil].
  - rewrite elem_of_cons. case_decide as Hl.
    + split; [auto|eauto].
    + rewrite IH. split; [auto|]. intros [?|?]; [congruence|done].
Qed.

Lemma get_col_None c t : get_col c t = None ↔ c ∉ labels t.
Proof. rewrite <- get_col_is_Some, eq_None_not_Some. done. Qed.

Lemma get_col_app_l c t1 t2 s :
  get_col c t1 = Some s → get_col c (t1 ++ t2) = Some s.
Proof.
  induction t1 as [|[l s'] t1 IH]; simpl; [done|]. case_decide; auto.
Qed.

Lemma get_col_app_r c t1 t2 :
  get_col c t1 = None → get_col c (t1 ++ t2) = get_col c t2.
Proof.
  induction t1 as [|[l s'] t1 IH]; simpl; [done|]. case_decide; [done|auto].
Qed.

Lemma get_col_setitem_eq c s t : get_col c (setitem c s t) = Some s.
Proof.
  unfold setitem. case_decide as Hc.
  - apply get_col_is_Some in Hc. clear -Hc.
    induction t as [|[l s'] t IH]; simpl in *; [by destruct Hc|].
    case_decide as Hl; simpl.
    + by rewrite decide_True.
    + rewrite decide_False by done. auto.
  - apply get_col_None in Hc. rewrite get_col_app_r by done.
    simpl. by rewrite decide_True.
Qed.

Lemma get_col_setitem_ne c c' s t :
  c ≠ c' → get_col c' (setitem c s t) = get_col c' t.
Proof.
  intros Hne. unfold setitem. case_decide as Hc.
  - clear Hc. induction t as [|[l s'] t IH]; simpl; [done|].
    case_decide as Hl; simpl.
    + subst. by rewrite !decide_False.
    + case_decide; [done|auto].
  - destruct (get_col c' t) as [s'|] eqn:E.
    + by apply get_col_app_l.
    + rewrite get_col_app_r by done. simpl. by rewrite decide_False.
Qed.

Lemma rectangular_get_col c t s :
  rectangular t → get_col c t = Some s → length s = nrows t.
Proof.
  intros Hr Hc%get_col_elem_of. unfold rectangular in Hr.
  rewrite Forall_forall in Hr. apply (Hr _ Hc).
Qed.

(** ** Running the body of plot_moving_averages *)

Section MovingAverageStep.
Context {F64 : Float64}.

Lemma df_getitem_run df c w t :
  objects w !! df = Some t → df_getitem df c w = (getitem c t, w).
Proof.
  intros H. unfold df_getitem, mbind, M_bind, load, lift. by rewrite H.
Qed.

Lemma df_getitem_dangling df c w :
  objects w !! df = None → df_getitem df c w = (Raise ValueError, w).
Proof.
  intros H. unfold df_getitem, mbind, M_bind, load, lift. by rewrite H.
Qed.

Lemma df_setitem_run df c s w t :
  objects w !! df = Some t →
  df_setitem df c s w
  = (Ok (), World (<[df := setitem c s t]> (objects w)) (canvas w)).
Proof.
  intros H. unfold df_setitem, mbind, M_bind, load, store. by rewrite H.
Qed.

Lemma moving_average_step_run df window column w t :
  objects w !! df = Some t →
  moving_average_step df window column w = step_outcome df window column w t.
Proof.
  intros H. unfold moving_average_step, step_outcome.
  unfold mbind at 1. unfold M_bind at 1.
  rewrite (df_getitem_run _ _ _ _ H).
  destruct (getitem column t) as [s|e]; [|done].
  unfold mbind at 1. unfold M_bind at 1. unfold lift at 1.
  destruct (rolling_mean window s) as [r|e]; [|done].
  unfold mbind at 1. unfold M_bind at 1.
  rewrite (df_setitem_run _ _ _ _ _ H).
  set (w1 := World _ _).
  assert (H1 : objects w1 !! df = Some (setitem column r t))
    by apply lookup_insert_eq.
  unfold mbind at 1. unfold M_bind at 1.
  rewrite (df_getitem_run _ _ _ _ H1).
  destruct (getitem "year" (setitem column r t)) as [x|e]; [|done].
  unfold mbind at 1. unfold M_bind at 1.
  rewrite (df_getitem_run _ _ _ _ H1).
  unfold getitem. rewrite get_col_setitem_eq. done.
Qed.

Lemma moving_average_step_dangling df window column w :
  objects w !! df = None →
  moving_average_step df window column w = (Raise ValueError, w).
Proof.
  intros H. unfold moving_average_step.
  unfold mbind at 1. unfold M_bind at 1.
  by rewrite (df_getitem_dangling _ _ _ H).
Qed.

Lemma moving_average_loop_cons df window column rest w :
  moving_average_loop df window (column :: rest) w
  = match moving_average_step df window column w with
    | (Ok _, w') => moving_average_loop df window rest w'
    | (Raise e, w') => (Raise e, w')
    end.
Proof. done. Qed.

(** What an iteration leaves at the reference: the table as it was, or
    the table with the column replaced by its rolling mean. *)
Lemma step_outcome_table df window column w t :
  objects w !! df = Some t →
  let w' := (step_outcome df window column w t).2 in
  objects w' !! df = Some t
  ∨ ∃ s r, get_col column t = Some s ∧ rolling_mean window s = Ok r
           ∧ objects w' !! df = Some (setitem column r t).
Proof.
  intros H. unfold step_outcome, getitem.
  destruct (get_col column t) as [s|] eqn:Hs; [|by left].
  destruct (rolling_mean window s) as [r|e] eqn:Hr; [|by left].
  right. exists s, r. split; [done|]. split; [done|].
  destruct (get_col "year" _); simpl; apply lookup_insert_eq.
Qed.

Lemma step_outcome_Ok df window column w t w' :
  step_outcome df window column w t = (Ok (), w') →
  ∃ s r x, get_col column t = Some s ∧ rolling_mean window s = Ok r
         ∧ get_col "year" (setitem column r t) = Some x
         ∧ w' = World (<[df := setitem column r t]> (objects w))
                      (canvas w ++ [plot x r column]).
Proof.
  unfold step_outcome, getitem.
  destruct (get_col column t) as [s|] eqn:Hs; [|done].
  destruct (rolling_mean window s) as [r|e] eqn:Hr; [|done].
  destruct (get_col "year" _) as [x|] eqn:Hx; [|done].
  intros [= <-]. by exists s, r, x.
Qed.

(** The calls after the loop only draw. *)
Lemma plot_moving_averages_run df columns window title_ xlabel_ ylabel_ w :
  plot_moving_averages df columns window title_ xlabel_ ylabel_ w
  = match moving_average_loop df window columns w with
    | (Ok _, w') =>
        (Ok (), World (objects w')
                      (canvas w' ++ [title title_; xlabel xlabel_;
                                     ylabel ylabel_; legend "upper left";
                                     show]))
    | (Raise e, w') => (Raise e, w')
    end.
Proof.
  unfold plot_moving_averages. unfold mbind at 1. unfold M_bind at 1.
  destruct (moving_average_loop df window columns w) as [[[]|e] w']; [|done].
  unfold mbind, M_bind, plt. simpl. by rewrite <- !app_assoc.
Qed.

End MovingAverageStep.

(** ** The loop of plot_moving_averages *)

Section MovingAverageLoop.
Context {F64 : Float64}.

(** A column the loop does not list reads the same afterwards, whether the
    loop completes or raises part-way. *)
Lemma moving_average_loop_frame df window columns c w :
  c ∉ columns →
  get_col c (table_of (moving_average_loop df window columns w).2 df)
  = get_col c (table_of w df).
Proof.
  revert w. induction columns as [|column rest IH]; intros w Hc; [done|].
  apply not_elem_of_cons in Hc as [Hne Hrest].
  rewrite moving_average_loop_cons.
  destruct (objects w !! df) as [t|] eqn:Ht.
  - rewrite (moving_average_step_run _ _ _ _ _ Ht).
    pose proof (step_outcome_table df window column w t Ht) as Hstep.
    destruct (step_outcome df window column w t) as [[[]|e] w1];
      simpl in Hstep; [rewrite IH by done|simpl];
      unfold table_of; rewrite Ht;
      (destruct Hstep as [->|(s & r & _ & _ & ->)]; simpl;
       [done|by apply get_col_setitem_ne]).
  - by rewrite (moving_average_step_dangling _ _ _ _ Ht).
Qed.

(** After a completed loop over distinct labels, each listed column holds
    the rolling mean of what it held before, and the others are as they
    were. *)
Lemma moving_average_loop_Ok df window columns w w' t :
  objects w !! df = Some t → NoDup columns →
  moving_average_loop df window columns w = (Ok (), w') →
  ∃ t', objects w' !! df = Some t'
    ∧ (∀ c, c ∈ columns →
         ∃ s r, get_col c t = Some s ∧ rolling_mean window s = Ok r
                ∧ get_col c t' = Some r)
    ∧ (∀ c, c ∉ columns → get_col c t' = get_col c t).
Proof.
  revert w t. induction columns as [|column rest IH]; intros w t Ht Hnd.
  - intros [= <-]. exists t. split; [done|]. split; [|done].
    by intros c ?%elem_of_nil.
  - apply NoDup_cons in Hnd as [Hfresh Hnd].
    rewrite moving_average_loop_cons, (moving_average_step_run _ _ _ _ _ Ht).
    destruct (step_outcome df window column w t) as [[[]|e] w1] eqn:Hstep;
      [|done].
    apply step_outcome_Ok in Hstep as (s & r & x & Hs & Hr & _ & ->).
    intros Hloop.
    destruct (IH _ (setitem column r t) (lookup_insert_eq _ _ _) Hnd Hloop)
      as (t' & Ht' & Hin & Hout).
    exists t'. split; [done|]. split.
    + intros c [->|Hc]%elem_of_cons.
      * exists s, r. rewrite (Hout _ Hfresh), get_col_setitem_eq. done.
      * destruct (Hin c Hc) as (s' & r' & Hs' & Hr' & Hc').
        exists s', r'. rewrite <- Hs'. split; [|done].
        symmetry. apply get_col_setitem_ne. by intros ->.
    + intros c [Hne Hc]%not_elem_of_cons.
      rewrite (Hout _ Hc). by apply get_col_setitem_ne.
Qed.

(** With a window no listed column can fill, the loop completes and turns
    every listed column into missing values. *)
Lemma moving_average_loop_wide df window columns w t :
  objects w !! df = Some t → is_Some (get_col "year" t) →
  window < 2 ^ 63 →
  (∀ c, c ∈ columns →
     ∃ s, get_col c t = Some s ∧ numeric s ∧ Z.of_nat (length s) < window) →
  ∃ w' t', moving_average_loop df window columns w = (Ok (), w')
    ∧ objects w' !! df = Some t'
    ∧ (∀ c, c ∈ columns →
         ∃ s, get_col c t = Some s
              ∧ get_col c t' = Some (replicate (length s) NaN))
    ∧ (∀ c, c ∉ columns → get_col c t' = get_col c t).
Proof.
  revert w t. induction columns as [|column rest IH]; intros w t Ht Hy Hmax Hcols.
  - exists w, t. split; [done|]. split; [done|]. split; [|done].
    by intros c ?%elem_of_nil.
  - destruct (Hcols column) as (s & Hs & Hnum & Hlen); [by left|].
    assert (Hr : rolling_mean window s = Ok (replicate (length s) NaN)).
    { rewrite rolling_mean_Ok by (done || lia).
      f_equal. apply roll_mean_wide. lia. }
    set (t1 := setitem column (replicate (length s) NaN) t).
    assert (Hy1 : is_Some (get_col "year" t1)).
    { unfold t1. destruct (decide (column = "year")) as [->|Hne].
      - rewrite get_col_setitem_eq. eauto.
      - by rewrite get_col_setitem_ne. }
    destruct Hy1 as [x Hx].
    rewrite moving_average_loop_cons, (moving_average_step_run _ _ _ _ _ Ht).
    unfold step_outcome, getitem. rewrite Hs, Hr. simpl. fold t1.
    rewrite Hx.
    edestruct (IH (World (<[df := t1]> (objects w))
                         (canvas w ++ [plot x (replicate (length s) NaN) column]))
                  t1) as (w' & t' & Hloop & Ht' & Hin & Hout).
    { apply lookup_insert_eq. }
    { eauto. }
    { done. }
    { intros c Hc. destruct (decide (column = c)) as [<-|Hne].
      - exists (replicate (length s) NaN). unfold t1.
        rewrite get_col_setitem_eq, length_replicate.
        split; [done|]. split; [|done]. by apply numeric_replicate.
      - destruct (Hcols c) as (s' & ? & ? & ?); [by right|].
        exists s'. unfold t1. by rewrite get_col_setitem_ne. }
    exists w', t'. split; [done|]. split; [done|]. split.
    + intros c Hc. destruct (decide (column = c)) as [<-|Hne].
      * exists s. split; [done|].
        destruct (decide (column ∈ rest)) as [Hrest|Hrest].
        -- destruct (Hin _ Hrest) as (s1 & Hs1 & ->).
           unfold t1 in Hs1. rewrite get_col_setitem_eq in Hs1.
           injection Hs1 as <-. by rewrite length_replicate.
        -- rewrite (Hout _ Hrest). unfold t1. by rewrite get_col_setitem_eq.
      * apply elem_of_cons in Hc as [->|Hc]; [done|].
        destruct (Hin _ Hc) as (s1 & Hs1 & ->).
        unfold t1 in Hs1. rewrite get_col_setitem_ne in Hs1 by done.
        exists s1. done.
    + intros c [Hne Hc]%not_elem_of_cons.
      rewrite (Hout _ Hc). unfold t1. by apply get_col_setitem_ne.
Qed.

End MovingAverageLoop.

(** ** C4 *)

Section C4.
Context {F64 : Float64}.


End C4.

Section C4_samples.
#[local] Existing Instance exact64.



End C4_samples.

(** ** C5 *)

Section C5.
Context {F64 : Float64}.

(** C5 (amended): MovingAverage works on the caller's table itself. After
    a call that returns, with the listed column names distinct, the
    caller's table holds in each listed column the rolling mean of the
    values that column held before the call, and every other column is as
    it was. *)
Theorem plot_moving_averages_in_place
    (w w' : world) (df : loc) (t : DataFrame) (columns : list string)
    (window : Z) (title_ xlabel_ ylabel_ : string) :
  objects w !! df = Some t → NoDup columns →
  plot_moving_averages df columns window title_ xlabel_ ylabel_ w
    = (Ok (), w') →
  ∃ t', objects w' !! df = Some t'
    ∧ (∀ c, c ∈ columns →
         ∃ s r, get_col c t = Some s ∧ rolling_mean window s = Ok r
                ∧ get_col c t' = Some r)
    ∧ (∀ c, c ∉ columns → get_col c t' = get_col c t).
Proof.
  intros Ht Hnd. rewrite plot_moving_averages_run.
  destruct (moving_average_loop df window columns w) as [[[]|e] w1] eqn:Hloop;
    [|done].
  intros [= <-]. simpl.
  by apply (moving_average_loop_Ok _ _ _ _ _ _ Ht Hnd Hloop).
Qed.

End C5.

Section C5_samples.
#[local] Existing Instance exact64.

(** C5, as stated, on the sample session with a window of 2: after the
    call the caller's table no longer holds 9, 10, 11 in "england". *)
Lemma caller_table_is_overwritten :
  ¬ (∀ (w : world) (df : loc) (columns : list string) (window : Z) (c : string),
       c ∈ columns →
       get_col c (table_of
                    (plot_moving_averages df columns window
                       "Rising Temperature" "Year" "Mean Temperature" w).2 df)
       = get_col c (table_of w df)).
Proof.
  intros H.
  specialize (H session 0%nat ["england"] 2 "england" (list_elem_of_here _ _)).
  vm_compute in H. discriminate.
Qed.

Lemma plot_moving_averages_in_place_witness :
  ∃ t', objects (plot_moving_averages 0%nat ["england"] 2
                   "Rising Temperature" "Year" "Mean Temperature" session).2
          !! 0%nat = Some t'
    ∧ (∀ c, c ∈ ["england"] →
         ∃ s r, get_col c climate = Some s ∧ rolling_mean 2 s = Ok r
                ∧ get_col c t' = Some r)
    ∧ (∀ c, c ∉ ["england"] → get_col c t' = get_col c climate).
Proof.
  apply (plot_moving_averages_in_place session _ 0%nat climate ["england"] 2
           "Rising Temperature" "Year" "Mean Temperature").
  - reflexivity.
  - apply NoDup_singleton.
  - vm_compute. reflexivity.
Defined.

End C5_samples.

(** ** C7 *)

Section C7.
Context {F64 : Float64}.

(** C7 (amended): when the table has distinct labels, a "year" column of
    numbers and every listed column as a column of numbers, and the
    window is larger than the row count of the table and fits a 64-bit
    integer, the call completes without error and every listed column of
    the table is then all missing values. *)
Theorem window_larger_than_table
    (w : world) (df : loc) (t : DataFrame) (columns : list string)
    (window : Z) (title_ xlabel_ ylabel_ : string) :
  objects w !! df = Some t → rectangular t → NoDup (labels t) →
  (∃ x, get_col "year" t = Some x ∧ numeric x) →
  (∀ c, c ∈ columns → ∃ s, get_col c t = Some s ∧ numeric s) →
  Z.of_nat (nrows t) < window < 2 ^ 63 →
  ∃ w', plot_moving_averages df columns window title_ xlabel_ ylabel_ w
          = (Ok (), w')
    ∧ ∀ c, c ∈ columns →
        get_col c (table_of w' df) = Some (replicate (nrows t) NaN).
Proof.
  intros Ht Hrect _ (x & Hx & _) Hcols Hw.
  destruct (moving_average_loop_wide df window columns w t Ht)
    as (w1 & t1 & Hloop & Ht1 & Hin & _); [by eauto|lia| |].
  { intros c Hc. destruct (Hcols c Hc) as (s & Hs & Hnum).
    exists s. rewrite (rectangular_get_col _ _ _ Hrect Hs).
    split; [done|]. split; [done|lia]. }
  rewrite plot_moving_averages_run, Hloop. eexists. split; [done|].
  intros c Hc. unfold table_of. simpl. rewrite Ht1. simpl.
  destruct (Hin c Hc) as (s & Hs & ->).
  by rewrite (rectangular_get_col _ _ _ Hrect Hs).
Qed.

End C7.

Section C7_samples.
#[local] Existing Instance exact64.

(** C7, as stated, on the sample session with a window of [2^63]: the
    table has three rows, a "year" column and the numeric column
    "england", the window is larger than the row count, and the call
    raises [OverflowError] instead of completing. *)
Lemma window_larger_than_table_overflow :
  ¬ (∀ (w : world) (df : loc) (t : DataFrame) (columns : list string)
       (window : Z),
       objects w !! df = Some t → rectangular t →
       is_Some (get_col "year" t) →
       (∀ c, c ∈ columns → ∃ s, get_col c t = Some s ∧ numeric s) →
       Z.of_nat (nrows t) < window →
       ∃ w', plot_moving_averages df columns window
               "Rising Temperature" "Year" "Mean Temperature" w
             = (Ok (), w')
         ∧ ∀ c, c ∈ columns →
             get_col c (table_of w' df) = Some (replicate (nrows t) NaN)).
Proof.
  intros H.
  destruct (H session 0%nat climate ["england"] (2 ^ 63)) as (w' & Hrun & _).
  - reflexivity.
  - unfold rectangular, climate. repeat constructor.
  - simpl. eauto.
  - intros c ->%list_elem_of_singleton. eexists. split; [reflexivity|].
    unfold numeric. repeat constructor.
  - simpl. lia.
  - vm_compute in Hrun. discriminate.
Qed.

Lemma window_larger_than_table_witness :
  ∃ w', plot_moving_averages 0%nat ["england"] 20
          "Rising Temperature" "Year" "Mean Temperature" session
          = (Ok (), w')
    ∧ ∀ c, c ∈ ["england"] →
        get_col c (table_of w' 0%nat) = Some (replicate (nrows climate) NaN).
Proof.
  apply (window_larger_than_table session 0%nat climate ["england"] 20).
  - reflexivity.
  - unfold rectangular, climate. repeat constructor.
  - apply (bool_decide_unpack _). vm_compute. exact I.
  - eexists. split; [reflexivity|]. unfold numeric. repeat constructor.
  - intros c ->%list_elem_of_singleton. eexists. split; [reflexivity|].
    unfold numeric. repeat constructor.
  - simpl. lia.
Defined.

End C7_samples.

(** ** C10 *)

Section C10.
Context {F64 : Float64}.

(** C10: when "year" is not among the listed column names, the "year"
    column of the caller's table reads the same after the call as before
    it, whether the call returns or raises. *)
Theorem year_column_unchanged
    (w : world) (df : loc) (columns : list string) (window : Z)
    (title_ xlabel_ ylabel_ : string) :
  "year" ∉ columns →
  get_col "year"
    (table_of (plot_moving_averages df columns window
                 title_ xlabel_ ylabel_ w).2 df)
  = get_col "year" (table_of w df).
Proof.
  intros Hy. rewrite plot_moving_averages_run.
  rewrite <- (moving_average_loop_frame df window columns "year" w Hy).
  by destruct (moving_average_loop df window columns w) as [[[]|e] w1].
Qed.

End C10.

Section C10_samples.
#[local] Existing Instance exact64.

Lemma year_column_unchanged_witness :
  get_col "year"
    (table_of (plot_moving_averages 0%nat ["england"] 2
                 "Rising Temperature" "Year" "Mean Temperature" session).2
              0%nat)
  = get_col "year" (table_of session 0%nat).
Proof.
  apply (year_column_unchanged session 0%nat ["england"] 2).
  intros Hin%list_elem_of_singleton. discriminate.
Defined.

End C10_samples.

(** ** The inner join *)

Lemma matches_shift (f : nat → value → nat * value) (x : value) (rk : Series) :
  (∀ j y, (f j y).2 = y) →
  length (imap f rk
          ≫= (λ p : nat * value, if decide (p.2 = x) then [p.1] else []))
  = length (filter (λ y, y = x) rk).
Proof.
  revert f. induction rk as [|y rk IH]; intros f Hf; [done|].
  rewrite imap_cons, bind_cons, length_app, filter_cons.
  rewrite (IH (f ∘ S)) by (intros; apply Hf).
  rewrite Hf. case_decide; simpl; lia.
Qed.

Lemma length_matches x rk :
  length (matches x rk) = length (filter (λ y, y = x) rk).
Proof. unfold matches. by apply matches_shift. Qed.

Lemma length_take_rows idx s : length (take_rows idx s) = length idx.
Proof. unfold take_rows. by rewrite length_fmap. Qed.

Lemma take_rows_app idx1 idx2 s :
  take_rows (idx1 ++ idx2) s = take_rows idx1 s ++ take_rows idx2 s.
Proof. unfold take_rows. by rewrite fmap_app. Qed.

Lemma take_rows_same_row (n : nat) (js : list nat) (s : Series) (x : value) :
  s !! n = Some x →
  take_rows ((λ j, (n, j)) <$> js).*1 s = replicate (length js) x.
Proof.
  intros Hn. induction js as [|j js IH]; [done|].
  cbn. rewrite Hn. simpl. f_equal. apply IH.
Qed.

Lemma join_pairs_shift (pre lk rk : Series) :
  take_rows
    ((imap (λ i x, ((length pre + i)%nat, x)) lk
      ≫= (λ p : nat * value, (λ j, (p.1, j)) <$> matches p.2 rk)).*1)
    (pre ++ lk)
  = joined_keys lk rk.
Proof.
  unfold joined_keys.
  revert pre. induction lk as [|x lk IH]; intros pre; [done|].
  rewrite imap_cons, !bind_cons, fmap_app, take_rows_app. f_equal.
  - simpl. apply take_rows_same_row.
    rewrite Nat.add_0_r. apply list_lookup_middle. done.
  - specialize (IH (pre ++ [x])). rewrite <- app_assoc in IH. simpl in IH.
    rewrite <- IH. f_equal. f_equal. f_equal.
    apply imap_ext. intros i y _. simpl.
    rewrite length_app. simpl. f_equal. lia.
Qed.

Lemma take_rows_join_pairs lk rk :
  take_rows (join_pairs lk rk).*1 lk = joined_keys lk rk.
Proof. apply (join_pairs_shift [] lk rk). Qed.

Lemma elem_of_joined_keys x lk rk :
  x ∈ joined_keys lk rk ↔ x ∈ lk ∧ x ∈ rk.
Proof.
  unfold joined_keys. rewrite list_elem_of_bind. split.
  - intros (y & [-> Hn]%elem_of_replicate & Hy). split; [done|].
    rewrite length_matches in Hn.
    destruct (filter (λ z, z = y) rk) as [|z zs] eqn:E; [done|].
    assert (z ∈ filter (λ z, z = y) rk) as [-> ?]%list_elem_of_filter;
      [rewrite E; left|done].
  - intros [Hl Hr]. exists x. split; [|done].
    apply elem_of_replicate. split; [done|].
    rewrite length_matches. intros Hz%length_zero_iff_nil.
    assert (x ∈ filter (λ z, z = x) rk) as Hx
      by (by apply list_elem_of_filter).
    rewrite Hz in Hx. by apply elem_of_nil in Hx.
Qed.

Lemma NoDup_count (x : value) (rk : Series) :
  NoDup rk → (length (filter (λ y, y = x) rk) ≤ 1)%nat.
Proof.
  induction 1 as [|y rk Hy Hnd IH]; [simpl; lia|].
  rewrite filter_cons. case_decide as E; [|done]. subst. simpl.
  destruct (filter (λ y, y = x) rk) as [|z zs] eqn:Ez; [simpl; lia|].
  assert (z ∈ filter (λ y, y = x) rk) as [-> ?]%list_elem_of_filter;
    [rewrite Ez; left|done].
Qed.

(** With distinct right keys, the join keeps a part of the left keys. *)
Lemma joined_keys_sublist lk rk : NoDup rk → joined_keys lk rk `sublist_of` lk.
Proof.
  intros Hnd. unfold joined_keys. induction lk as [|x lk IH]; [done|].
  rewrite bind_cons. pose proof (NoDup_count x rk Hnd) as Hc.
  rewrite <- length_matches in Hc.
  destruct (length (matches x rk)) as [|[|n]]; simpl; [|..|lia].
  - by apply sublist_cons.
  - by apply sublist_skip.
Qed.

Lemma joined_keys_distinct lk rk :
  NoDup lk → NoDup rk → NoDup (joined_keys lk rk).
Proof.
  intros Hl Hr. apply (sublist_NoDup _ lk); [done|by apply joined_keys_sublist].
Qed.

Lemma length_joined_keys lk rk :
  length (joined_keys lk rk) = length (join_pairs lk rk).
Proof.
  by rewrite <- take_rows_join_pairs, length_take_rows, length_fmap.
Qed.

(** ** pd.merge on "year" *)

(** A suffixed label is never the key. *)
Lemma suffixed_not_year l : l +:+ "_x" ≠ "year".
Proof.
  destruct l as [|a [|b [|c [|d l]]]]; simpl; try discriminate.
  destruct l; discriminate.
Qed.

Lemma add_suffix_x_year overlap l :
  l ≠ "year" → add_suffix overlap "_x" l ≠ "year".
Proof.
  intros Hl. unfold add_suffix. case_decide; [apply suffixed_not_year|done].
Qed.

Lemma get_col_year_left overlap idx (left : DataFrame) :
  get_col "year"
    ((λ p : string * Series,
        (if decide (p.1 = "year") then p.1 else add_suffix overlap "_x" p.1,
         take_rows idx p.2)) <$> left)
  = take_rows idx <$> get_col "year" left.
Proof.
  induction left as [|[l s] left IH]; [done|].
  cbn [fmap list_fmap get_col fst snd].
  destruct (decide (l = "year")) as [->|Hl].
  - by rewrite !decide_True.
  - rewrite decide_False by by apply add_suffix_x_year.
    apply IH.
Qed.

(** What a successful merge on "year" returns, as far as its rows and its
    "year" column go. *)
Lemma pd_merge_year left right out :
  pd_merge left right "year" = Ok out →
  ∃ lk rk, get_col "year" left = Some lk ∧ get_col "year" right = Some rk
    ∧ get_col "year" out = Some (joined_keys lk rk)
    ∧ nrows out = length (joined_keys lk rk).
Proof.
  unfold pd_merge. case_decide; [done|]. case_decide; [done|].
  unfold mbind, result_bind, getitem.
  destruct (get_col "year" left) as [lk|] eqn:Hlk; [|done].
  destruct (get_col "year" right) as [rk|] eqn:Hrk; [|done].
  case_decide; [done|].
  destruct (suffix_clash _ _ || suffix_clash _ _); [done|].
  intros [= <-]. exists lk, rk. split; [done|]. split; [done|]. split.
  - erewrite get_col_app_l; [done|].
    rewrite get_col_year_left, Hlk. simpl. by rewrite take_rows_join_pairs.
  - destruct left as [|[l s] left]; [done|].
    simpl. by rewrite length_take_rows, length_fmap, length_joined_keys.
Qed.

(** ** merge_climate_data *)

(** Every table of [dfs] comes from the source of its pair and has that
    source's "year" column, whose length is its row count. *)
Lemma load_sources_spec read_csv pairs dfs :
  load_sources read_csv pairs = Ok dfs →
  Forall2 (λ (p : string * string) df,
             ∃ t ys, read_csv p.1 = Ok t ∧ get_col "year" t = Some ys
                     ∧ get_col "year" df = Some ys
                     ∧ nrows df = length ys) pairs dfs.
Proof.
  revert dfs. induction pairs as [|[url column] pairs IH]; intros dfs.
  - intros [= <-]. constructor.
  - cbn [load_sources]. unfold mbind, result_bind.
    destruct (read_csv url) as [t|] eqn:Ht; [|done].
    cbn [select]. unfold mbind, result_bind, getitem.
    destruct (get_col "year" t) as [ys|] eqn:Hys; [|done].
    destruct (get_col "ann" t) as [vs|] eqn:Hvs; [|done].
    destruct (load_sources read_csv pairs) as [dfs'|] eqn:Hrest; [|done].
    intros [= <-]. constructor; [|by apply IH].
    exists t, ys. done.
Qed.

Lemma merge_all_year merged dfs out K :
  merge_all merged dfs = Ok out →
  get_col "year" merged = Some K → nrows merged = length K →
  ∃ K', get_col "year" out = Some K' ∧ nrows out = length K'
    ∧ (∀ y, y ∈ K' → y ∈ K)
    ∧ Forall (λ df, ∃ Y, get_col "year" df = Some Y ∧ ∀ y, y ∈ K' → y ∈ Y)
             dfs
    ∧ (NoDup K →
       Forall (λ df, ∀ Y, get_col "year" df = Some Y → NoDup Y) dfs →
       NoDup K').
Proof.
  revert merged K. induction dfs as [|df dfs IH]; intros merged K.
  - intros [= <-] HK Hn. exists K. repeat split; auto.
  - cbn [merge_all]. unfold mbind, result_bind.
    destruct (pd_merge merged df "year") as [m|] eqn:Hm; [|done].
    intros Hall HK Hn.
    apply pd_merge_year in Hm as (lk & rk & Hlk & Hrk & Hyear & Hrows).
    rewrite HK in Hlk. injection Hlk as <-.
    destruct (IH _ _ Hall Hyear Hrows) as (K' & HK' & Hn' & Hsub & Hall' & Hnd).
    exists K'. split; [done|]. split; [done|]. split; [|split].
    + intros y Hy%Hsub%elem_of_joined_keys. tauto.
    + constructor; [|done]. exists rk. split; [done|].
      intros y Hy%Hsub%elem_of_joined_keys. tauto.
    + intros HndK Hdfs. apply Forall_cons in Hdfs as [Hdf Hdfs].
      apply Hnd; [|done]. apply joined_keys_distinct; [done|].
      by apply Hdf.
Qed.

Lemma NoDup_subset_length (l k : Series) :
  NoDup l → (∀ x, x ∈ l → x ∈ k) → (length l ≤ length k)%nat.
Proof. intros Hl Hsub. apply submseteq_length. by apply NoDup_submseteq. Qed.

(** ** C1 *)

(** C1, as stated, on two sources that list the year 2000 twice: the
    sources have 2 and 3 rows, the merged table has 4. *)
Lemma merge_repeated_years_exceeds_minimum :
  ¬ (∀ (read_csv : string → result DataFrame) (urls columns : list string)
       (out : DataFrame),
       merge_climate_data read_csv urls columns = Ok out →
       ∀ url t, url ∈ (zip urls columns).*1 → read_csv url = Ok t →
         rectangular t → (nrows out ≤ nrows t)%nat).
Proof.
  intros H.
  destruct (merge_climate_data met_office ["North.txt"; "South.txt"]
              ["north"; "south"]) as [out|] eqn:Hout;
    [|vm_compute in Hout; discriminate].
  specialize (H met_office _ _ out Hout "North.txt" north_src).
  assert (Hrows : nrows out = 4%nat).
  { vm_compute in Hout. injection Hout as <-. reflexivity. }
  rewrite Hrows in H. simpl in H.
  assert (4 ≤ 2)%nat; [|lia].
  apply H; [by left|reflexivity|].
  unfold rectangular, north_src. repeat constructor.
Qed.

(** C1 (amended): when Merge returns a table, the "year" value of every
    output row appears in the "year" column of every input table, and, if
    no input table lists a year twice, the output row count is at most the
    row count of every input table. The input tables are those of the
    pairs of [zip(urls, columns)]. *)
Theorem merge_climate_data_inner_join
    (read_csv : string → result DataFrame) (urls columns : list string)
    (out : DataFrame) :
  merge_climate_data read_csv urls columns = Ok out →
  ∃ years, get_col "year" out = Some years ∧ length years = nrows out
    ∧ ∀ url, url ∈ (zip urls columns).*1 →
        ∃ t ys, read_csv url = Ok t ∧ get_col "year" t = Some ys
          ∧ (∀ y, y ∈ years → y ∈ ys)
          ∧ ((∀ url' t' ys', url' ∈ (zip urls columns).*1 →
                read_csv url' = Ok t' → get_col "year" t' = Some ys' →
                NoDup ys') →
             rectangular t → (nrows out ≤ nrows t)%nat).
Proof.
  unfold merge_climate_data, mbind, result_bind.
  destruct (load_sources read_csv (zip urls columns)) as [dfs|] eqn:Hload;
    [|done].
  apply load_sources_spec in Hload.
  destruct dfs as [|first rest]; [done|]. intros Hall.
  pose proof Hload as Hfirst.
  apply Forall2_cons_inv_r in Hfirst
    as (p0 & pairs & (t0 & K & Ht0 & HK0 & HK & Hn) & Hrest & Hzip).
  destruct (merge_all_year _ _ _ _ Hall HK Hn)
    as (years & Hyears & Hrows & Hsub & Hin & Hnd).
  exists years. split; [done|]. split; [done|].
  assert (Hdistinct :
    (∀ url' t' ys', url' ∈ (zip urls columns).*1 →
       read_csv url' = Ok t' → get_col "year" t' = Some ys' → NoDup ys') →
    NoDup years).
  { intros Huniq. apply Hnd.
    - apply (Huniq p0.1 t0 K); [|done|done].
      rewrite Hzip. simpl. by left.
    - apply Forall_forall. intros df Hdf Y HY.
      apply list_elem_of_lookup in Hdf as [i Hi].
      destruct (Forall2_lookup_r _ _ _ _ _ Hrest Hi)
        as (p & Hp & t & ys & Ht & Hys & Hdfy & _).
      rewrite HY in Hdfy. injection Hdfy as ->.
      apply (Huniq p.1 t ys); [|done|done].
      rewrite Hzip. simpl. right. apply list_elem_of_fmap.
      exists p. split; [done|]. by eapply list_elem_of_lookup_2. }
  intros url Hurl. rewrite Hzip in Hurl.
  assert (∃ t ys, read_csv url = Ok t ∧ get_col "year" t = Some ys
                  ∧ ∀ y, y ∈ years → y ∈ ys) as (t & ys & Ht & Hys & Hsubt).
  { simpl in Hurl. apply elem_of_cons in Hurl as [->|Hurl].
    - exists t0, K. done.
    - apply list_elem_of_fmap in Hurl as (p & -> & Hp).
      apply list_elem_of_lookup in Hp as [i Hi].
      destruct (Forall2_lookup_l _ _ _ _ _ Hrest Hi)
        as (df & Hdf & t & ys & Ht & Hys & Hdfy & _).
      exists t, ys. split; [done|]. split; [done|].
      rewrite Forall_forall in Hin.
      destruct (Hin df) as (Y & HY & HsubY);
        [by eapply list_elem_of_lookup_2|].
      rewrite HY in Hdfy. by injection Hdfy as ->. }
  exists t, ys. split; [done|]. split; [done|]. split; [done|].
  intros Huniq Hrect. rewrite Hrows.
  rewrite <- (rectangular_get_col _ _ _ Hrect Hys).
  apply NoDup_subset_length; [by apply Hdistinct|done].
Qed.

Lemma merge_climate_data_inner_join_witness :
  ∃ out, merge_climate_data met_office ["England.txt"; "Wales.txt"]
           ["england"; "wales"] = Ok out
    ∧ ∃ years, get_col "year" out = Some years ∧ length years = nrows out
      ∧ ∀ url, url ∈ (zip ["England.txt"; "Wales.txt"]
                          ["england"; "wales"]).*1 →
          ∃ t ys, met_office url = Ok t ∧ get_col "year" t = Some ys
            ∧ (∀ y, y ∈ years → y ∈ ys)
            ∧ ((∀ url' t' ys',
                  url' ∈ (zip ["England.txt"; "Wales.txt"]
                              ["england"; "wales"]).*1 →
                  met_office url' = Ok t' → get_col "year" t' = Some ys' →
                  NoDup ys') →
               rectangular t → (nrows out ≤ nrows t)%nat).
Proof.
  eexists. split; [vm_compute; reflexivity|].
  apply (merge_climate_data_inner_join met_office
           ["England.txt"; "Wales.txt"] ["england"; "wales"]).
  vm_compute. reflexivity.
Defined.

(** ** C8 *)

(** C8: with lists of unequal lengths, Merge does what it does on the two
    lists cut to the shorter length; the entries beyond it play no part,
    and no error comes from the mismatch. *)
Theorem merge_climate_data_truncates
    (read_csv : string → result DataFrame) (urls columns : list string) :
  let n := (length urls `min` length columns)%nat in
  merge_climate_data read_csv urls columns
  = merge_climate_data read_csv (take n urls) (take n columns).
Proof.
  intros n. unfold merge_climate_data.
  replace (zip (take n urls) (take n columns)) with (zip urls columns); [done|].
  symmetry. apply zip_with_take_both'; lia.
Qed.

(** ** C9 *)

(** C9: with no sources, Merge raises (the [IndexError] of [dfs[0]]) and
    returns no table. *)
Theorem merge_climate_data_no_sources
    (read_csv : string → result DataFrame) (columns : list string) :
  merge_climate_data read_csv [] columns = Raise IndexError.
Proof. reflexivity. Qed.

(** ** Counting *)

Lemma Z_sum_Permutation l k : l ≡ₚ k → Z_sum l = Z_sum k.
Proof.
  induction 1 as [|x l k _ IH|x y l|l k m _ IH1 _ IH2]; simpl;
    [done|by rewrite IH|lia|congruence].
Qed.

Lemma count_of_cons v x s :
  count_of v (x :: s) = (if decide (x = v) then 1 else 0) + count_of v s.
Proof.
  unfold count_of. rewrite filter_cons. case_decide; simpl length; lia.
Qed.

(** Summing the counts of distinct values counts the rows holding one of
    them. *)
Lemma sum_counts_distinct (l : list value) (s : Series) :
  NoDup l →
  Z_sum ((λ v, count_of v s) <$> l)
  = Z.of_nat (length (filter (λ x, x ∈ l) s)).
Proof.
  induction 1 as [|v l Hv Hnd IH].
  - simpl. induction s as [|x s IHs]; [done|].
    rewrite filter_cons_False; [done|]. apply not_elem_of_nil.
  - cbn [fmap list_fmap Z_sum foldr]. fold (Z_sum ((λ v, count_of v s) <$> l)).
    rewrite IH. clear IH.
    induction s as [|x s IHs]; [done|].
    rewrite count_of_cons, !filter_cons.
    destruct (decide (x ∈ v :: l)) as [Hin|Hin];
      destruct (decide (x = v)) as [Hxv|Hxv];
      destruct (decide (x ∈ l)) as [Hxl|Hxl];
      simpl length; try lia; exfalso;
      rewrite elem_of_cons in Hin; subst; tauto.
Qed.

Lemma filter_ext_elem_of (P Q : value → Prop)
    `{!∀ x, Decision (P x)} `{!∀ x, Decision (Q x)} (s : Series) :
  (∀ x, x ∈ s → P x ↔ Q x) → filter P s = filter Q s.
Proof.
  induction s as [|x s IH]; intros Hiff; [done|].
  rewrite !filter_cons, IH by (intros; apply Hiff; by right).
  destruct (Hiff x) as [H1 H2]; [by left|].
  repeat case_decide; tauto.
Qed.

Lemma elem_of_unique x s : x ∈ unique s ↔ x ∈ s.
Proof.
  unfold unique. by rewrite elem_of_reverse, elem_of_remove_dups, elem_of_reverse.
Qed.

Lemma NoDup_unique s : NoDup (unique s).
Proof. unfold unique. rewrite reverse_Permutation. apply NoDup_remove_dups. Qed.

Lemma insert_count_Permutation p l : insert_count p l ≡ₚ p :: l.
Proof.
  induction l as [|q l IH]; simpl; [done|].
  case_decide; [|done]. rewrite IH. apply Permutation_swap.
Qed.

Lemma sort_counts_Permutation l : sort_counts l ≡ₚ l.
Proof.
  induction l as [|p l IH]; simpl; [done|].
  by rewrite insert_count_Permutation, IH.
Qed.

Lemma value_counts_Permutation s :
  value_counts s
  ≡ₚ (λ v, (v, count_of v s)) <$> unique (filter (λ v, isna v = false) s).
Proof. unfold value_counts. apply sort_counts_Permutation. Qed.

(** The counts of [value_counts] add up to the number of rows that are not
    missing. *)
Lemma value_counts_total s :
  Z_sum (value_counts s).*2
  = Z.of_nat (length (filter (λ v, isna v = false) s)).
Proof.
  rewrite (Z_sum_Permutation _ _
             (fmap_Permutation snd _ _ (value_counts_Permutation s))).
  rewrite <- list_fmap_compose.
  change (snd ∘ (λ v, (v, count_of v s))) with (λ v, count_of v s).
  rewrite sum_counts_distinct by apply NoDup_unique.
  f_equal. f_equal. apply filter_ext_elem_of. intros x Hx.
  rewrite elem_of_unique, list_elem_of_filter. tauto.
Qed.

(** ** plot_unclaimed_estates *)

Section EstatesProperties.

Variable strptime : string → value → option datetime.

Lemma to_datetime_Ok dates format :
  (∀ v, v ∈ dates → isna v = false → is_Some (strptime format v)) →
  to_datetime strptime dates format
  = Ok (parse_cell strptime format <$> dates).
Proof.
  induction dates as [|v dates IH]; intros Hall; [done|].
  cbn [to_datetime fmap list_fmap]. unfold mbind, result_bind.
  rewrite IH by (intros; apply Hall; [by right|done]).
  unfold parse_cell. destruct (isna v) eqn:Hna; [done|].
  destruct (Hall v) as [d Hd]; [by left|done|]. by rewrite Hd.
Qed.

Lemma to_datetime_mismatch dates format v :
  v ∈ dates → isna v = false → strptime format v = None →
  to_datetime strptime dates format = Raise ValueError.
Proof.
  intros Hv Hna Hnone. induction dates as [|x dates IH];
    [by apply elem_of_nil in Hv|].
  cbn [to_datetime]. unfold mbind, result_bind.
  destruct (decide (x = v)) as [->|Hne].
  - by rewrite Hna, Hnone.
  - apply elem_of_cons in Hv as [?|Hv]; [done|].
    rewrite IH by done.
    destruct (isna x); [done|]. by destruct (strptime format x).
Qed.

Lemma series_gt_dt_year ds bound :
  series_gt (dt_year ds) bound = Ok (after bound <$> ds).
Proof.
  unfold dt_year. induction ds as [|[d|] ds IH]; [done|..];
    cbn [fmap list_fmap series_gt]; unfold mbind, result_bind in *;
    rewrite IH; [|done].
  unfold int. cbn [after]. do 2 f_equal.
  apply bool_decide_ext. symmetry. apply Z2Qc_inj_lt.
Qed.

(** The years kept by the mask are those of the dates after the bound,
    and none of them is missing. *)
Lemma kept_years ds bound :
  length (filter (λ v, isna v = false)
                 (mask_rows (after bound <$> ds) (dt_year ds)))
  = length (filter (λ d, after bound d = true) ds).
Proof.
  unfold mask_rows, dt_year.
  induction ds as [|[d|] ds IH]; [done|..]; cbn [fmap list_fmap zip zip_with].
  - rewrite !filter_cons. cbn [fst after].
    destruct (bool_decide (bound < year d)) eqn:E.
    + rewrite !decide_True by done. cbn [fmap list_fmap snd].
      rewrite filter_cons, decide_True by done. simpl length.
      f_equal. apply IH.
    + rewrite !decide_False by done. apply IH.
  - rewrite !filter_cons. cbn [fst after].
    rewrite !decide_False by done. apply IH.
Qed.

Lemma count_year_after dates format bound :
  length (filter (λ d, after bound d = true)
                 (parse_cell strptime format <$> dates))
  = length (filter (λ v, year_after strptime format bound v = true) dates).
Proof.
  induction dates as [|v dates IH]; [done|].
  cbn [fmap list_fmap]. rewrite !filter_cons.
  change (year_after strptime format bound v)
    with (after bound (parse_cell strptime format v)).
  case_decide; simpl length; by rewrite IH.
Qed.

Lemma get_col_mask_table c mask t :
  get_col c (mask_table mask t) = mask_rows mask <$> get_col c t.
Proof.
  unfold mask_table. induction t as [|[l s] t IH]; [done|].
  cbn [fmap list_fmap get_col fst snd]. case_decide; [done|apply IH].
Qed.

End EstatesProperties.

(** ** C3 *)

(** C3: when the file is read, has the date column, and every date present
    in it matches the format, the call completes and draws one bar chart
    whose heights add up to the number of rows whose parsed year is
    strictly greater than 1999. *)
Theorem yearly_bar_heights_sum
    (read_csv : string → result DataFrame)
    (strptime : string → value → option datetime)
    (file_path date_format : string) (w : world)
    (data : DataFrame) (dates : Series) :
  read_csv file_path = Ok data →
  get_col "Date of Death" data = Some dates →
  (∀ v, v ∈ dates → isna v = false → is_Some (strptime date_format v)) →
  ∃ years heights,
    plot_unclaimed_estates read_csv strptime file_path date_format w
    = (Ok (),
       World (objects w)
             (canvas w ++ [figure; bar years heights;
                           xlabel "Unclaimed Year"; ylabel "Count";
                           title "Unclaimed House since 2000";
                           xticks years; tight_layout; show]))
    ∧ Z_sum heights
      = Z.of_nat (length (filter
                   (λ v, year_after strptime date_format 1999 v = true)
                   dates)).
Proof.
  intros Hread Hdates Hparse.
  unfold plot_unclaimed_estates, mbind, M_bind, lift, plt, getitem.
  rewrite Hread, Hdates, (to_datetime_Ok strptime _ _ Hparse).
  rewrite get_col_setitem_eq, series_gt_dt_year.
  rewrite get_col_mask_table, get_col_setitem_eq.
  cbn [fmap option_fmap option_map objects canvas].
  eexists _, _. split.
  - rewrite <- !app_assoc. reflexivity.
  - unfold sort_index.
    rewrite (Z_sum_Permutation _ _
               (fmap_Permutation snd _ _ (merge_sort_Permutation _ _))).
    rewrite value_counts_total, kept_years, count_year_after. done.
Qed.

Lemma yearly_bar_heights_sum_witness :
  ∃ years heights,
    plot_unclaimed_estates disk sample_strptime
      "UnclaimedEstatesList.csv" "%d/%m/%Y" blank
    = (Ok (),
       World (objects blank)
             (canvas blank ++ [figure; bar years heights;
                               xlabel "Unclaimed Year"; ylabel "Count";
                               title "Unclaimed House since 2000";
                               xticks years; tight_layout; show]))
    ∧ Z_sum heights
      = Z.of_nat (length (filter
                   (λ v, year_after sample_strptime "%d/%m/%Y" 1999 v = true)
                   [Str "03/02/2001"; Str "17/11/1999"; NaN;
                    Str "25/12/2001"; Str "01/01/2000"])).
Proof.
  apply (yearly_bar_heights_sum disk sample_strptime
           "UnclaimedEstatesList.csv" "%d/%m/%Y" blank register).
  - reflexivity.
  - reflexivity.
  - intros v Hv Hna. unfold is_Some.
    repeat (apply elem_of_cons in Hv as [Hv|Hv];
            [subst v; first [discriminate Hna | vm_compute; eauto]|]).
    by apply elem_of_nil in Hv.
Defined.

(** ** C6 *)

(** C6, as stated, on the sample register: its third row has no date, so
    the date field of that row does not match the format, yet the call
    completes; the row is skipped and the bars count the other rows. *)
Lemma missing_date_is_skipped :
  ¬ (∀ (read_csv : string → result DataFrame)
       (strptime : string → value → option datetime)
       (file_path date_format : string) (w : world)
       (data : DataFrame) (dates : Series) (v : value),
       read_csv file_path = Ok data →
       get_col "Date of Death" data = Some dates →
       v ∈ dates → parse_cell strptime date_format v = None →
       ∃ e w',
         plot_unclaimed_estates read_csv strptime file_path date_format w
         = (Raise e, w')).
Proof.
  intros H.
  destruct (H disk sample_strptime "UnclaimedEstatesList.csv" "%d/%m/%Y"
              blank register
              [Str "03/02/2001"; Str "17/11/1999"; NaN;
               Str "25/12/2001"; Str "01/01/2000"] NaN)
    as (e & w' & Hrun).
  - reflexivity.
  - reflexivity.
  - do 2 right. left.
  - reflexivity.
  - vm_compute in Hrun. discriminate.
Qed.

(** C6 (amended): when the file is read and has the date column, and some
    row holds a date that is present and does not match the format, the
    whole call raises: nothing is drawn and no count is produced. *)
Theorem unparsable_date_is_fatal
    (read_csv : string → result DataFrame)
    (strptime : string → value → option datetime)
    (file_path date_format : string) (w : world)
    (data : DataFrame) (dates : Series) (v : value) :
  read_csv file_path = Ok data →
  get_col "Date of Death" data = Some dates →
  v ∈ dates → isna v = false → strptime date_format v = None →
  plot_unclaimed_estates read_csv strptime file_path date_format w
  = (Raise ValueError, w).
Proof.
  intros Hread Hdates Hv Hna Hnone.
  unfold plot_unclaimed_estates, mbind, M_bind, lift, getitem.
  rewrite Hread, Hdates.
  by rewrite (to_datetime_mismatch strptime _ _ _ Hv Hna Hnone).
Qed.

Lemma unparsable_date_is_fatal_witness :
  plot_unclaimed_estates disk sample_strptime "Damaged.csv" "%d/%m/%Y" blank
  = (Raise ValueError, blank).
Proof.
  apply (unparsable_date_is_fatal disk sample_strptime "Damaged.csv"
           "%d/%m/%Y" blank damaged_register
           [Str "03/02/2001"; Str "unknown"] (Str "unknown")).
  - reflexivity.
  - reflexivity.
  - right. left.
  - reflexivity.
  - reflexivity.
Defined.

(** ** plot_marital_status_distribution *)

Section MaritalStatus.
Context {F64 : Float64}.

Lemma elem_of_value_counts c n s :
  (c, n) ∈ value_counts s ↔ c ∈ s ∧ isna c = false ∧ n = count_of c s.
Proof.
  rewrite (value_counts_Permutation s), list_elem_of_fmap.
  setoid_rewrite elem_of_unique. setoid_rewrite list_elem_of_filter.
  split.
  - intros (v & [= -> ->] & Hna & Hv). done.
  - intros (Hc & Hna & ->). by exists c.
Qed.

Lemma elem_of_value_counts_labels c s :
  c ∈ (value_counts s).*1 ↔ c ∈ s ∧ isna c = false.
Proof.
  rewrite list_elem_of_fmap. split.
  - intros ([c' n] & -> & (? & ? & _)%elem_of_value_counts). done.
  - intros [? ?]. exists (c, count_of c s). split; [done|].
    by apply elem_of_value_counts.
Qed.

Lemma elem_of_small_categories threshold s c :
  c ∈ small_categories threshold (value_counts s) ↔ rare threshold s c.
Proof.
  unfold small_categories, rare, relative_frequency, below_threshold.
  rewrite list_elem_of_fmap, value_counts_total. split.
  - intros ([c' n] & -> & [Hlt (? & ? & ->)%elem_of_value_counts]
                           %list_elem_of_filter).
    done.
  - intros (Hc & Hna & Hlt). exists (c, count_of c s). split; [done|].
    apply list_elem_of_filter. split; [done|].
    by apply elem_of_value_counts.
Qed.

Lemma relabel_isna small x :
  (∀ c, c ∈ small → isna c = false) → isna (relabel small x) = isna x.
Proof.
  intros Hsmall. unfold relabel. case_decide as Hx; [|done].
  by rewrite (Hsmall _ Hx).
Qed.

Lemma length_filter_fmap_isna (f : value → value) (s : Series) :
  (∀ x, isna (f x) = isna x) →
  length (filter (λ v, isna v = false) (f <$> s))
  = length (filter (λ v, isna v = false) s).
Proof.
  intros Hf. induction s as [|x s IH]; [done|].
  cbn [fmap list_fmap]. rewrite !filter_cons, Hf.
  case_decide; simpl length; by rewrite IH.
Qed.

Lemma count_of_fmap (f : value → value) (v : value) (s : Series) :
  count_of v (f <$> s) = Z.of_nat (length (filter (λ x, f x = v) s)).
Proof.
  unfold count_of. f_equal. induction s as [|x s IH]; [done|].
  cbn [fmap list_fmap]. rewrite !filter_cons.
  case_decide; simpl length; by rewrite IH.
Qed.

Lemma value_counts_nonempty s :
  (∃ v, v ∈ s ∧ isna v = false) → value_counts s ≠ [].
Proof.
  intros (v & Hv & Hna) Hnil.
  assert ((v, count_of v s) ∈ value_counts s) as Hin
    by by apply elem_of_value_counts.
  rewrite Hnil in Hin. by apply elem_of_nil in Hin.
Qed.

Lemma value_counts_empty s :
  (∀ v, v ∈ s → isna v = true) → value_counts s = [].
Proof.
  intros Hall. destruct (value_counts s) as [|[c n] l] eqn:Hvc; [done|].
  assert ((c, n) ∈ value_counts s) as Hin by (rewrite Hvc; left).
  apply elem_of_value_counts in Hin as (Hc & Hna & _).
  rewrite (Hall _ Hc) in Hna. done.
Qed.

(** The call on a file that is read and has the status column, when the
    relabelled column has a category to draw. *)
Lemma plot_marital_status_distribution_run
    (read_csv : string → result DataFrame) (file_path : string)
    (threshold : Qc) (w : world) (data : DataFrame) (status : Series) :
  read_csv file_path = Ok data →
  get_col "Marital Status" data = Some status →
  let counts :=
    value_counts
      (relabel (small_categories threshold (value_counts status))
         <$> status) in
  counts ≠ [] →
  plot_marital_status_distribution read_csv file_path threshold w
  = (Ok (),
     World (objects w)
           (canvas w ++ [figure; pie counts.*2 counts.*1;
                         title "Distribution of Marital Status";
                         axis "equal"; show])).
Proof.
  intros Hread Hstatus counts Hne.
  unfold plot_marital_status_distribution, mbind, M_bind, lift, getitem.
  rewrite Hread, Hstatus, get_col_setitem_eq. fold counts.
  unfold plt_pie. destruct counts as [|p l]; [done|].
  unfold plt. cbn [objects canvas fmap list_fmap]. by rewrite <- !app_assoc.
Qed.

(** The call on a file that is read and has the status column, when the
    relabelled column has no category at all: the figure is opened and
    the pie raises. *)
Lemma plot_marital_status_distribution_no_slice
    (read_csv : string → result DataFrame) (file_path : string)
    (threshold : Qc) (w : world) (data : DataFrame) (status : Series) :
  read_csv file_path = Ok data →
  get_col "Marital Status" data = Some status →
  value_counts
    (relabel (small_categories threshold (value_counts status)) <$> status)
  = [] →
  plot_marital_status_distribution read_csv file_path threshold w
  = (Raise ValueError, World (objects w) (canvas w ++ [figure])).
Proof.
  intros Hread Hstatus Hnil.
  unfold plot_marital_status_distribution, mbind, M_bind, lift, getitem.
  rewrite Hread, Hstatus, get_col_setitem_eq, Hnil. done.
Qed.

End MaritalStatus.

(** ** C2 *)

Section C2.
Context {F64 : Float64}.

(** C2 (amended): when the file is read into a table with distinct
    labels that has the status column, and at least one row has a status,
    the call completes and draws one pie whose slice counts add up to the
    number of rows whose status is not missing. Relative frequencies are
    taken among those rows, as the float64 quotients the program
    computes. A category whose relative frequency is strictly below the
    threshold is no slice label, unless it is the label "Other" itself,
    and when there is such a category the slice "Other" counts exactly
    the rows holding such a category or "Other". *)
Theorem bucketed_pie
    (read_csv : string → result DataFrame) (file_path : string)
    (threshold : Qc) (w : world) (data : DataFrame) (status : Series) :
  read_csv file_path = Ok data → NoDup (labels data) →
  get_col "Marital Status" data = Some status →
  (∃ v, v ∈ status ∧ isna v = false) →
  ∃ slices slice_labels,
    plot_marital_status_distribution read_csv file_path threshold w
    = (Ok (),
       World (objects w)
             (canvas w ++ [figure; pie slices slice_labels;
                           title "Distribution of Marital Status";
                           axis "equal"; show]))
    ∧ length slices = length slice_labels
    ∧ Z_sum slices
      = Z.of_nat (length (filter (λ v, isna v = false) status))
    ∧ ∀ c, rare threshold status c →
        (c ≠ Str "Other" → c ∉ slice_labels)
        ∧ (Str "Other",
           Z.of_nat (length (filter
             (λ x, rare threshold status x ∨ x = Str "Other") status)))
          ∈ zip slice_labels slices.
Proof.
  intros Hread _ Hstatus Hsome.
  set (small := small_categories threshold (value_counts status)).
  set (relabelled := relabel small <$> status).
  assert (Hsmall : ∀ c, c ∈ small ↔ rare threshold status c)
    by (intros; apply elem_of_small_categories).
  assert (Hna : ∀ x, isna (relabel small x) = isna x).
  { intros x. apply relabel_isna. intros c Hc%Hsmall. apply Hc. }
  exists (value_counts relabelled).*2, (value_counts relabelled).*1.
  split.
  { apply (plot_marital_status_distribution_run _ _ _ _ _ _ Hread Hstatus).
    apply value_counts_nonempty. destruct Hsome as (v & Hv & Hnv).
    exists (relabel small v). split; [by apply list_elem_of_fmap_2|].
    by rewrite Hna. }
  split; [by rewrite !length_fmap|].
  split.
  { rewrite value_counts_total. unfold relabelled.
    by rewrite length_filter_fmap_isna. }
  intros c Hc. split.
  - intros Hother [Hin _]%elem_of_value_counts_labels.
    apply list_elem_of_fmap in Hin as (x & Hx & _).
    unfold relabel in Hx. case_decide as Hxs; [done|].
    subst x. by apply Hxs, Hsmall.
  - rewrite zip_fst_snd. apply elem_of_value_counts.
    assert (Hrel : relabel small c = Str "Other").
    { unfold relabel. rewrite decide_True; [done|]. by apply Hsmall. }
    split; [|split; [done|]].
    + rewrite <- Hrel. apply list_elem_of_fmap_2. apply Hc.
    + unfold relabelled. rewrite count_of_fmap. do 2 f_equal.
      apply list_filter_iff. intros x. rewrite <- Hsmall.
      unfold relabel. case_decide; tauto.
Qed.

End C2.

Section C2_samples.
#[local] Existing Instance exact64.

(** C2, as stated, on the sample register, where one of the five rows has
    no marital status: the slices add up to 4, not to the 5 input rows. *)
Lemma pie_slices_skip_missing_rows :
  ¬ (∀ (read_csv : string → result DataFrame) (file_path : string)
       (threshold : Qc) (data : DataFrame) (status : Series)
       (slices : list Z) (slice_labels : list value),
       read_csv file_path = Ok data →
       get_col "Marital Status" data = Some status →
       pie slices slice_labels
         ∈ canvas (plot_marital_status_distribution read_csv file_path
                     threshold blank).2 →
       Z_sum slices = Z.of_nat (length status)).
Proof.
  intros H.
  specialize (H disk "UnclaimedEstatesList.csv" default_threshold register
                [Str "Single"; Str "Widow"; NaN; Str "Single"; Str "Single"]
                [3; 1] [Str "Single"; Str "Widow"] eq_refl eq_refl).
  assert (Z_sum [3; 1] = Z.of_nat 5) as Hsum; [|vm_compute in Hsum; done].
  apply H. vm_compute. right. left.
Qed.

Lemma bucketed_pie_witness :
  ∃ slices slice_labels,
    plot_marital_status_distribution disk "UnclaimedEstatesList.csv"
      (Q2Qc (1 # 2)) blank
    = (Ok (),
       World (objects blank)
             (canvas blank ++ [figure; pie slices slice_labels;
                               title "Distribution of Marital Status";
                               axis "equal"; show]))
    ∧ length slices = length slice_labels
    ∧ Z_sum slices
      = Z.of_nat (length (filter (λ v, isna v = false)
                    [Str "Single"; Str "Widow"; NaN;
                     Str "Single"; Str "Single"]))
    ∧ ∀ c, rare (Q2Qc (1 # 2))
             [Str "Single"; Str "Widow"; NaN; Str "Single"; Str "Single"] c →
        (c ≠ Str "Other" → c ∉ slice_labels)
        ∧ (Str "Other",
           Z.of_nat (length (filter
             (λ x, rare (Q2Qc (1 # 2))
                     [Str "Single"; Str "Widow"; NaN;
                      Str "Single"; Str "Single"] x
                   ∨ x = Str "Other")
             [Str "Single"; Str "Widow"; NaN; Str "Single"; Str "Single"])))
          ∈ zip slice_labels slices.
Proof.
  apply (bucketed_pie disk "UnclaimedEstatesList.csv" (Q2Qc (1 # 2)) blank
           register).
  - reflexivity.
  - apply (bool_decide_unpack _). vm_compute. exact I.
  - reflexivity.
  - exists (Str "Single"). split; [left|reflexivity].
Defined.

(** On the sample register with a threshold of 1/2, "Widow" (1 row of 4)
    is rare and is folded; "Single" stays. *)
Example bucketed_pie_sample :
  (plot_marital_status_distribution disk "UnclaimedEstatesList.csv"
     (Q2Qc (1 # 2)) blank).2
  = World ∅ [figure; pie [3; 1] [Str "Single"; Str "Other"];
             title "Distribution of Marital Status"; axis "equal"; show].
Proof. vm_compute. reflexivity. Qed.

End C2_samples.

(** * Further properties *)

(** ** Rolling mean, row by row *)

Section RollingRows.
Context {F64 : Float64}.

Lemma observations_missing (l : Series) :
  NaN ∈ l → (length (observations l) < length l)%nat.
Proof.
  induction l as [|v l IH]; [by intros ?%elem_of_nil|].
  intros [<-|Hin]%elem_of_cons.
  - simpl. pose proof (length_observations l). lia.
  - specialize (IH Hin). destruct v; simpl; lia.
Qed.

Lemma window_at_fmap (f : value → value) w i (s : Series) :
  window_at w i (f <$> s) = f <$> window_at w i s.
Proof. unfold window_at. by rewrite fmap_drop, fmap_take. Qed.

Lemma length_window_at w i (s : Series) :
  (length (window_at w i s) ≤ w)%nat.
Proof. unfold window_at. rewrite length_drop, length_take. lia. Qed.

Lemma length_window_at_short w i (s : Series) :
  (i + 1 < w)%nat → (length (window_at w i s) < w)%nat.
Proof. unfold window_at. rewrite length_drop, length_take. lia. Qed.

Lemma window_at_1 i (s : Series) v : s !! i = Some v → window_at 1 i s = [v].
Proof.
  intros Hv. unfold window_at. replace (i + 1 - 1)%nat with i by lia.
  replace (i + 1)%nat with (S i) by lia.
  erewrite take_S_r by done. rewrite drop_app_length'; [done|].
  rewrite length_take. apply lookup_lt_Some in Hv. lia.
Qed.

(** X2: a row whose window is not yet full, or holds a missing cell, gets
    no mean. *)
Theorem rolling_mean_undefined_rows (s : Series) (window : Z) (i : nat) :
  numeric s → 0 ≤ window < 2 ^ 63 → (i < length s)%nat →
  Z.of_nat i + 1 < window ∨ NaN ∈ window_at (Z.to_nat window) i s →
  ∃ r, rolling_mean window s = Ok r ∧ r !! i = Some NaN.
Proof.
  intros Hnum Hw Hi Hcase. eexists. split; [by apply rolling_mean_Ok|].
  rewrite roll_mean_lookup.
  destruct (lookup_lt_is_Some_2 s i Hi) as [v ->]. simpl. f_equal.
  apply calc_mean_short. rewrite window_at_fmap.
  destruct Hcase as [Hshort|Hnan].
  - eapply Nat.le_lt_trans; [apply length_observations|].
    rewrite length_fmap. apply length_window_at_short. lia.
  - eapply Nat.lt_le_trans.
    + apply observations_missing.
      by apply (list_elem_of_fmap_2 prep_cell) in Hnan.
    + rewrite length_fmap. apply length_window_at.
Qed.

(** With a window of one row every cell is its own mean: the cell as the
    window functions receive it. *)
Lemma roll_mean_1 (s : Series) : roll_mean 1 s = prep_cell <$> s.
Proof.
  apply list_eq. intros i. rewrite roll_mean_lookup, list_lookup_fmap.
  destruct (s !! i) as [v|] eqn:Hv; [|done]. simpl. f_equal.
  assert (window_at 1 i (prep_cell <$> s) = [prep_cell v]) as Hwin.
  { apply window_at_1. by rewrite list_lookup_fmap, Hv. }
  destruct v as [q|b|t|]; simpl in *.
  - apply (calc_mean_same _ _ _ _ 1); [by rewrite Hwin|lia..].
  - apply calc_mean_short. rewrite Hwin. simpl. lia.
  - apply calc_mean_short. rewrite Hwin. simpl. lia.
  - apply calc_mean_short. rewrite Hwin. simpl. lia.
Qed.

End RollingRows.

Section RollingRows_samples.
#[local] Existing Instance exact64.

Lemma rolling_mean_undefined_rows_witness :
  ∃ r, rolling_mean 2 [int 9; NaN; int 11] = Ok r ∧ r !! 2%nat = Some NaN.
Proof.
  apply (rolling_mean_undefined_rows [int 9; NaN; int 11] 2 2).
  - unfold numeric. repeat constructor.
  - lia.
  - simpl. lia.
  - right. vm_compute. left.
Defined.

End RollingRows_samples.

(** ** plot_moving_averages: what is drawn, and when it fails *)

Section LinesAndFailures.
Context {F64 : Float64}.

(** X3: with a window of one row, a call that returns, with the listed
    column names distinct, has only converted the listed columns to
    float64: each of their cells is now the float64 of the number it
    held, or missing where it was missing or infinite; every other column
    is as it was. *)
Theorem plot_moving_averages_window_1
    (w w' : world) (df : loc) (t : DataFrame) (columns : list string)
    (title_ xlabel_ ylabel_ : string) :
  objects w !! df = Some t → NoDup columns →
  plot_moving_averages df columns 1 title_ xlabel_ ylabel_ w = (Ok (), w') →
  ∃ t', objects w' !! df = Some t'
    ∧ (∀ c, c ∈ columns →
         ∃ s, get_col c t = Some s ∧ get_col c t' = Some (prep_cell <$> s))
    ∧ (∀ c, c ∉ columns → get_col c t' = get_col c t).
Proof.
  intros Ht Hnd. rewrite plot_moving_averages_run.
  destruct (moving_average_loop df 1 columns w) as [[[]|e] w1] eqn:Hloop;
    [|done].
  intros [= <-]. simpl.
  destruct (moving_average_loop_Ok _ _ _ _ _ _ Ht Hnd Hloop)
    as (t' & Ht' & Hin & Hout).
  exists t'. split; [done|]. split; [|done].
  intros c Hc. destruct (Hin c Hc) as (s & r & Hs & Hr & Hc').
  apply rolling_mean_inv in Hr as (_ & _ & ->).
  change (Z.to_nat 1) with 1%nat in Hc'. rewrite roll_mean_1 in Hc'.
  by exists s.
Qed.

(** The lines a completed loop draws: one per listed column, in order,
    each the rolling mean of the column against the "year" column. *)
Lemma moving_average_loop_lines df window columns w w' t ys :
  objects w !! df = Some t → get_col "year" t = Some ys →
  NoDup columns → "year" ∉ columns →
  moving_average_loop df window columns w = (Ok (), w') →
  ∃ lines, canvas w' = canvas w ++ lines
    ∧ Forall2 (λ c line, ∃ s r, get_col c t = Some s
                                ∧ rolling_mean window s = Ok r
                                ∧ line = plot ys r c) columns lines.
Proof.
  revert w t. induction columns as [|column rest IH];
    intros w t Ht Hys Hnd Hyear.
  - intros [= <-]. exists []. split; [by rewrite app_nil_r|constructor].
  - apply NoDup_cons in Hnd as [Hfresh Hnd].
    apply not_elem_of_cons in Hyear as [Hne Hyear].
    rewrite moving_average_loop_cons, (moving_average_step_run _ _ _ _ _ Ht).
    destruct (step_outcome df window column w t) as [[[]|e] w1] eqn:Hstep;
      [|done].
    apply step_outcome_Ok in Hstep as (s & r & x & Hs & Hr & Hx & ->).
    rewrite get_col_setitem_ne, Hys in Hx by (by intros ->).
    injection Hx as <-.
    intros Hloop.
    assert (Hys1 : get_col "year" (setitem column r t) = Some ys)
      by (rewrite get_col_setitem_ne; [done|by intros ->]).
    destruct (IH _ (setitem column r t) (lookup_insert_eq _ _ _)
                 Hys1 Hnd Hyear Hloop) as (lines & Hcanvas & Hlines).
    exists (plot ys r column :: lines). split.
    + rewrite Hcanvas. simpl. by rewrite <- app_assoc.
    + constructor; [by exists s, r|].
      apply Forall2_same_length_lookup in Hlines as [Hlen Hlines].
      apply Forall2_same_length_lookup. split; [done|].
      intros i c line Hc Hline.
      destruct (Hlines i c line Hc Hline) as (s' & r' & Hs' & Hr' & ->).
      exists s', r'. split; [|done]. rewrite <- Hs'. symmetry.
      apply get_col_setitem_ne. intros ->.
      by apply Hfresh, (list_elem_of_lookup_2 _ i).
Qed.

(** X4: a call that returns, on distinct labels other than "year", has
    drawn one line per listed column, in the listed order, each the
    rolling mean of that column's values before the call plotted against
    the "year" column and labelled with the column name; then the title,
    the axis labels, the legend in the upper left, and the show. *)
Theorem plot_moving_averages_lines
    (w w' : world) (df : loc) (t : DataFrame) (ys : Series)
    (columns : list string) (window : Z) (title_ xlabel_ ylabel_ : string) :
  objects w !! df = Some t → get_col "year" t = Some ys →
  NoDup columns → "year" ∉ columns →
  plot_moving_averages df columns window title_ xlabel_ ylabel_ w
    = (Ok (), w') →
  ∃ lines,
    canvas w' = canvas w ++ lines ++ [title title_; xlabel xlabel_;
                                       ylabel ylabel_; legend "upper left";
                                       show]
    ∧ Forall2 (λ c line, ∃ s r, get_col c t = Some s
                                ∧ rolling_mean window s = Ok r
                                ∧ line = plot ys r c) columns lines.
Proof.
  intros Ht Hys Hnd Hyear. rewrite plot_moving_averages_run.
  destruct (moving_average_loop df window columns w) as [[[]|e] w1] eqn:Hloop;
    [|done].
  intros [= <-]. simpl.
  destruct (moving_average_loop_lines _ _ _ _ _ _ _ Ht Hys Hnd Hyear Hloop)
    as (lines & -> & Hlines).
  exists lines. split; [by rewrite <- app_assoc|done].
Qed.

(** A column the table lacks stays lacking through the loop, which then
    cannot complete. *)
Lemma moving_average_loop_missing df window columns c w t :
  objects w !! df = Some t → c ∈ columns → get_col c t = None →
  ∃ e w', moving_average_loop df window columns w = (Raise e, w').
Proof.
  revert w t. induction columns as [|column rest IH]; intros w t Ht Hc Hnone;
    [by apply elem_of_nil in Hc|].
  rewrite moving_average_loop_cons, (moving_average_step_run _ _ _ _ _ Ht).
  destruct (step_outcome df window column w t) as [[[]|e] w1] eqn:Hstep;
    [|by eauto].
  apply step_outcome_Ok in Hstep as (s & r & x & Hs & Hr & _ & ->).
  apply elem_of_cons in Hc as [->|Hc]; [congruence|].
  apply (IH _ (setitem column r t)); [apply lookup_insert_eq|done|].
  rewrite get_col_setitem_ne; [done|]. intros ->. congruence.
Qed.

(** X5: when a listed column is not in the table, the call raises and
    never reaches the title, the legend or the show. *)
Theorem plot_moving_averages_missing_column
    (w : world) (df : loc) (t : DataFrame) (columns : list string)
    (window : Z) (title_ xlabel_ ylabel_ : string) (c : string) :
  objects w !! df = Some t → c ∈ columns → get_col c t = None →
  ∃ e w', plot_moving_averages df columns window title_ xlabel_ ylabel_ w
          = (Raise e, w')
    ∧ moving_average_loop df window columns w = (Raise e, w').
Proof.
  intros Ht Hc Hnone. rewrite plot_moving_averages_run.
  destruct (moving_average_loop_missing df window columns c w t Ht Hc Hnone)
    as (e & w' & ->).
  by exists e, w'.
Qed.

(** X6: a negative window makes the call raise at the first listed column,
    before the table is touched or anything is drawn: [ValueError] when
    the column is there, [KeyError] when it is not. *)
Theorem plot_moving_averages_negative_window
    (w : world) (df : loc) (t : DataFrame) (column : string)
    (rest : list string) (window : Z) (title_ xlabel_ ylabel_ : string) :
  objects w !! df = Some t → window < 0 →
  plot_moving_averages df (column :: rest) window title_ xlabel_ ylabel_ w
  = (Raise match get_col column t with
           | Some _ => ValueError
           | None => KeyError column
           end, w).
Proof.
  intros Ht Hw.
  rewrite plot_moving_averages_run, moving_average_loop_cons.
  rewrite (moving_average_step_run _ _ _ _ _ Ht).
  unfold step_outcome, getitem.
  destruct (get_col column t) as [s|]; [|done].
  unfold rolling_mean. by rewrite decide_True.
Qed.

End LinesAndFailures.

Section LinesAndFailures_samples.
#[local] Existing Instance exact64.

Lemma plot_moving_averages_window_1_witness :
  ∃ t', objects (plot_moving_averages 0%nat ["england"] 1
                   "Rising Temperature" "Year" "Mean Temperature" session).2
          !! 0%nat = Some t'
    ∧ (∀ c, c ∈ ["england"] →
         ∃ s, get_col c climate = Some s
              ∧ get_col c t' = Some (prep_cell <$> s))
    ∧ (∀ c, c ∉ ["england"] → get_col c t' = get_col c climate).
Proof.
  apply (plot_moving_averages_window_1 session _ 0%nat climate ["england"]
           "Rising Temperature" "Year" "Mean Temperature").
  - reflexivity.
  - apply NoDup_singleton.
  - vm_compute. reflexivity.
Defined.

Lemma plot_moving_averages_lines_witness :
  ∃ lines,
    canvas (plot_moving_averages 0%nat ["england"] 2
              "Rising Temperature" "Year" "Mean Temperature" session).2
    = canvas session ++ lines ++ [title "Rising Temperature"; xlabel "Year";
                                  ylabel "Mean Temperature";
                                  legend "upper left"; show]
    ∧ Forall2 (λ c line, ∃ s r, get_col c climate = Some s
                                ∧ rolling_mean 2 s = Ok r
                                ∧ line = plot [int 2000; int 2001; int 2002]
                                              r c)
              ["england"] lines.
Proof.
  apply (plot_moving_averages_lines session _ 0%nat climate
           [int 2000; int 2001; int 2002] ["england"] 2).
  - reflexivity.
  - reflexivity.
  - apply NoDup_singleton.
  - intros Hin%list_elem_of_singleton. discriminate.
  - vm_compute. reflexivity.
Defined.

Lemma plot_moving_averages_missing_column_witness :
  ∃ e w', plot_moving_averages 0%nat ["england"; "wales"] 2
            "Rising Temperature" "Year" "Mean Temperature" session
          = (Raise e, w')
    ∧ moving_average_loop 0%nat 2 ["england"; "wales"] session
      = (Raise e, w').
Proof.
  apply (plot_moving_averages_missing_column session 0%nat climate
           ["england"; "wales"] 2 _ _ _ "wales").
  - reflexivity.
  - right. left.
  - reflexivity.
Defined.

Lemma plot_moving_averages_negative_window_witness :
  plot_moving_averages 0%nat ["england"] (-1)
    "Rising Temperature" "Year" "Mean Temperature" session
  = (Raise match get_col "england" climate with
           | Some _ => ValueError
           | None => KeyError "england"
           end, session).
Proof.
  apply (plot_moving_averages_negative_window session 0%nat climate
           "england" [] (-1)).
  - reflexivity.
  - lia.
Defined.

End LinesAndFailures_samples.

(** ** merge_climate_data: failing sources, and the years kept *)

(** The table built from one source: its "year" column, and its "ann"
    column under the target name. *)
Lemma load_sources_inv read_csv pairs dfs :
  load_sources read_csv pairs = Ok dfs →
  Forall2 (λ (p : string * string) df,
             ∃ t ys vs, read_csv p.1 = Ok t ∧ get_col "year" t = Some ys
                        ∧ get_col "ann" t = Some vs
                        ∧ df = [("year", ys); (p.2, vs)]) pairs dfs.
Proof.
  revert dfs. induction pairs as [|[url column] pairs IH]; intros dfs.
  - intros [= <-]. constructor.
  - cbn [load_sources]. unfold mbind, result_bind.
    destruct (read_csv url) as [t|] eqn:Ht; [|done].
    cbn [select]. unfold mbind, result_bind, getitem.
    destruct (get_col "year" t) as [ys|] eqn:Hys; [|done].
    destruct (get_col "ann" t) as [vs|] eqn:Hvs; [|done].
    destruct (load_sources read_csv pairs) as [dfs'|] eqn:Hrest; [|done].
    intros [= <-]. constructor; [|by apply IH].
    exists t, ys, vs. done.
Qed.

(** X8: Merge returns no table unless every paired source is read and
    has both a "year" and an "ann" column: one source that cannot be read,
    or lacks one of the two columns, makes the whole call raise. *)
Theorem merge_climate_data_bad_source
    (read_csv : string → result DataFrame) (urls columns : list string)
    (url : string) :
  url ∈ (zip urls columns).*1 →
  (∀ t, read_csv url = Ok t →
        get_col "year" t = None ∨ get_col "ann" t = None) →
  ∃ e, merge_climate_data read_csv urls columns = Raise e.
Proof.
  intros Hurl Hbad. unfold merge_climate_data, mbind, result_bind.
  destruct (load_sources read_csv (zip urls columns)) as [dfs|e] eqn:Hload;
    [|by eauto].
  exfalso. apply load_sources_inv in Hload.
  apply list_elem_of_fmap in Hurl as (p & -> & Hp).
  apply list_elem_of_lookup in Hp as [i Hi].
  destruct (Forall2_lookup_l _ _ _ _ _ Hload Hi)
    as (df & _ & t & ys & vs & Ht & Hys & Hvs & _).
  destruct (Hbad t Ht); congruence.
Qed.

Lemma merge_climate_data_bad_source_witness :
  ∃ e, merge_climate_data met_office ["England.txt"; "Ireland.txt"]
         ["england"; "northern"] = Raise e.
Proof.
  apply (merge_climate_data_bad_source met_office
           ["England.txt"; "Ireland.txt"] ["england"; "northern"]
           "Ireland.txt").
  - right. left.
  - intros t Ht. vm_compute in Ht. discriminate.
Defined.

(** A year of the merged table so far that every remaining table lists
    is still there at the end. *)
Lemma merge_all_complete merged dfs out K K' y :
  merge_all merged dfs = Ok out →
  get_col "year" merged = Some K → get_col "year" out = Some K' →
  y ∈ K →
  Forall (λ df, ∀ Y, get_col "year" df = Some Y → y ∈ Y) dfs →
  y ∈ K'.
Proof.
  revert merged K. induction dfs as [|df dfs IH]; intros merged K.
  - intros [= <-] HK HK' Hy _. congruence.
  - cbn [merge_all]. unfold mbind, result_bind.
    destruct (pd_merge merged df "year") as [m|] eqn:Hm; [|done].
    intros Hall HK HK' Hy [Hdf Hdfs]%Forall_cons.
    apply pd_merge_year in Hm as (lk & rk & Hlk & Hrk & Hyear & _).
    rewrite HK in Hlk. injection Hlk as <-.
    apply (IH _ _ Hall Hyear HK'); [|done].
    apply elem_of_joined_keys. split; [done|]. by apply Hdf.
Qed.

(** X9: the merged table holds exactly the years that every input table
    lists: a year is in its "year" column if and only if it is in the
    "year" column of the table of every pair. *)
Theorem merge_climate_data_years
    (read_csv : string → result DataFrame) (urls columns : list string)
    (out : DataFrame) (years : Series) (y : value) :
  merge_climate_data read_csv urls columns = Ok out →
  get_col "year" out = Some years →
  y ∈ years ↔
  ∀ url t ys, url ∈ (zip urls columns).*1 → read_csv url = Ok t →
              get_col "year" t = Some ys → y ∈ ys.
Proof.
  unfold merge_climate_data, mbind, result_bind.
  destruct (load_sources read_csv (zip urls columns)) as [dfs|] eqn:Hload;
    [|done].
  apply load_sources_spec in Hload.
  destruct dfs as [|first rest]; [done|]. intros Hall Hyears.
  pose proof Hload as Hfirst.
  apply Forall2_cons_inv_r in Hfirst
    as (p0 & pairs & (t0 & K & Ht0 & HK0 & HK & Hn) & Hrest & Hzip).
  destruct (merge_all_year _ _ _ _ Hall HK Hn)
    as (years' & Hyears' & _ & Hsub & Hin & _).
  rewrite Hyears in Hyears'. injection Hyears' as <-.
  rewrite Hzip. split.
  - intros Hy url t ys Hurl Ht Hys. simpl in Hurl.
    apply elem_of_cons in Hurl as [->|Hurl].
    + rewrite Ht0 in Ht. injection Ht as <-.
      rewrite HK0 in Hys. injection Hys as <-. by apply Hsub.
    + apply list_elem_of_fmap in Hurl as (p & -> & Hp).
      apply list_elem_of_lookup in Hp as [i Hi].
      destruct (Forall2_lookup_l _ _ _ _ _ Hrest Hi)
        as (df & Hdf & t' & ys' & Ht' & Hys' & Hdfy & _).
      rewrite Ht' in Ht. injection Ht as <-.
      rewrite Hys' in Hys. injection Hys as <-.
      rewrite Forall_forall in Hin.
      destruct (Hin df) as (Y & HY & HsubY);
        [by eapply list_elem_of_lookup_2|].
      rewrite HY in Hdfy. injection Hdfy as ->. by apply HsubY.
  - intros Hevery.
    apply (merge_all_complete _ _ _ _ _ _ Hall HK Hyears).
    + apply (Hevery p0.1 t0 K); [by left|done|done].
    + apply Forall_forall. intros df Hdf Y HY.
      apply list_elem_of_lookup in Hdf as [i Hi].
      destruct (Forall2_lookup_r _ _ _ _ _ Hrest Hi)
        as (p & Hp & t & ys & Ht & Hys & Hdfy & _).
      rewrite HY in Hdfy. injection Hdfy as ->.
      apply (Hevery p.1 t ys); [|done|done].
      simpl. right. apply list_elem_of_fmap. exists p.
      split; [done|]. by eapply list_elem_of_lookup_2.
Qed.

Lemma merge_climate_data_years_witness :
  ∃ out years,
    merge_climate_data met_office ["England.txt"; "Wales.txt"]
      ["england"; "wales"] = Ok out
    ∧ get_col "year" out = Some years
    ∧ (int 2001 ∈ years ↔
       ∀ url t ys,
         url ∈ (zip ["England.txt"; "Wales.txt"] ["england"; "wales"]).*1 →
         met_office url = Ok t → get_col "year" t = Some ys →
         int 2001 ∈ ys).
Proof.
  eexists _, _. split; [vm_compute; reflexivity|].
  split; [vm_compute; reflexivity|].
  eapply (merge_climate_data_years met_office ["England.txt"; "Wales.txt"]
            ["england"; "wales"]).
  - vm_compute. reflexivity.
  - vm_compute. reflexivity.
Defined.

(** ** merge_climate_data: the columns of the merged table *)

Lemma filter_eq_not_elem_of (k : string) (l : list string) :
  k ∉ l → filter (λ x, x = k) l = [].
Proof.
  induction l as [|x l IH]; [done|].
  intros [Hne Hl]%not_elem_of_cons. rewrite filter_cons_False by done. auto.
Qed.

Lemma filter_other_labels (k : string) (t : DataFrame) :
  k ∉ labels t → filter (λ p : string * Series, p.1 ≠ k) t = t.
Proof.
  unfold labels. induction t as [|[l s] t IH]; [done|].
  cbn [fmap list_fmap fst]. intros [Hne Hl]%not_elem_of_cons.
  rewrite filter_cons_True by (simpl; congruence). by rewrite IH.
Qed.

Lemma filter_elem_of_singleton (c : string) (l : list string) :
  c ∉ l → filter (λ x, x ∈ [c]) l = [].
Proof.
  induction l as [|x l IH]; [done|].
  intros [Hne Hl]%not_elem_of_cons.
  rewrite filter_cons_False; [auto|].
  intros ->%list_elem_of_singleton. done.
Qed.

Lemma add_suffix_nil sfx (l : list string) : add_suffix [] sfx <$> l = l.
Proof.
  induction l as [|x l IH]; [done|]. cbn [fmap list_fmap].
  rewrite IH. unfold add_suffix. rewrite decide_False; [done|].
  apply not_elem_of_nil.
Qed.

Lemma suffix_clash_same (l : list string) : suffix_clash l l = false.
Proof.
  unfold suffix_clash. generalize (@nil string).
  induction l as [|x l IH]; intros seen; [done|].
  cbn [duplicated zip zip_with existsb]. rewrite IH.
  by destruct (bool_decide (x ∈ seen)).
Qed.

(** Two key columns of numbers pass the dtype check. *)
Lemma dtype_clash_numeric lk rk :
  numeric lk → numeric rk → ¬ dtype_clash lk rk.
Proof.
  intros Hl%existsb_is_text_false Hr%existsb_is_text_false (_ & _ & Hne).
  congruence.
Qed.

Lemma numeric_take_rows idx s : numeric s → numeric (take_rows idx s).
Proof.
  unfold numeric, take_rows. rewrite !Forall_forall.
  intros Hs v (i & -> & _)%list_elem_of_fmap.
  destruct (s !! i) as [x|] eqn:Hx; [|done]. simpl.
  apply Hs. by eapply list_elem_of_lookup_2.
Qed.

(** Merging in a table whose one value column has a new label, when the
    key columns pass the dtype check: no label is suffixed, the left
    columns follow the left rows of the join and the new column the right
    rows. *)
Lemma pd_merge_fresh (lk rk vs : Series) (cols : DataFrame) (c : string) :
  "year" ∉ labels cols → c ∉ labels cols → c ≠ "year" →
  pd_merge (("year", lk) :: cols) [("year", rk); (c, vs)] "year"
  = if decide (dtype_clash lk rk)
    then Raise ValueError
    else Ok (("year", take_rows (join_pairs lk rk).*1 lk)
             :: ((λ p : string * Series,
                    (p.1, take_rows (join_pairs lk rk).*1 p.2)) <$> cols)
             ++ [(c, take_rows (join_pairs lk rk).*2 vs)]).
Proof.
  intros Hyear Hc Hne. unfold pd_merge.
  assert (Hl : length (filter (λ l, l = "year")
                         (labels (("year", lk) :: cols))) = 1%nat).
  { unfold labels. cbn [fmap list_fmap fst].
    rewrite filter_cons_True by done.
    fold (labels cols). by rewrite filter_eq_not_elem_of. }
  assert (Hr : length (filter (λ l, l = "year")
                         (labels [("year", rk); (c, vs)])) = 1%nat).
  { unfold labels. cbn [fmap list_fmap fst].
    rewrite filter_cons_True by done. by rewrite filter_cons_False. }
  rewrite Hl, Hr. rewrite decide_False by lia. rewrite decide_False by lia.
  unfold mbind, result_bind, getitem. cbn [get_col].
  rewrite !decide_True by done.
  destruct (decide (dtype_clash lk rk)) as [Hclash|Hclash]; [done|].
  rewrite filter_cons_False by (simpl; congruence).
  rewrite filter_other_labels by done.
  rewrite (filter_cons_False _ ("year", rk)) by (simpl; congruence).
  rewrite filter_cons_True by (simpl; congruence). rewrite filter_nil.
  change (labels [(c, vs)]) with [c].
  rewrite filter_elem_of_singleton by done.
  rewrite !add_suffix_nil, !suffix_clash_same. cbn [orb].
  f_equal. cbn [fmap list_fmap fst snd].
  rewrite decide_True by done. rewrite <- app_comm_cons. f_equal. f_equal.
  apply list_fmap_ext. intros i [l s] Hi. cbn [fst snd].
  assert (l ≠ "year").
  { intros ->. apply Hyear. unfold labels.
    apply list_elem_of_fmap. exists ("year", s).
    split; [done|]. by eapply list_elem_of_lookup_2. }
  rewrite decide_False by done.
  unfold add_suffix. rewrite decide_False; [done|]. apply not_elem_of_nil.
Qed.

Lemma elem_of_matches j x rk : j ∈ matches x rk ↔ rk !! j = Some x.
Proof.
  unfold matches. rewrite list_elem_of_bind. split.
  - intros ([j' y] & Hj & (i & y' & Heq & Hi)%elem_of_lookup_imap).
    injection Heq as -> ->.
    simpl in Hj. case_decide as E; [|by apply elem_of_nil in Hj].
    apply list_elem_of_singleton in Hj as ->. by subst.
  - intros Hj. exists (j, x). split.
    + simpl. rewrite decide_True by done. by left.
    + apply elem_of_lookup_imap. by exists j, x.
Qed.

(** The two rows of a joined pair hold the same key. *)
Lemma elem_of_join_pairs i j lk rk :
  (i, j) ∈ join_pairs lk rk ↔ ∃ x, lk !! i = Some x ∧ rk !! j = Some x.
Proof.
  unfold join_pairs. rewrite list_elem_of_bind. split.
  - intros ([i' x] & Hin & (i2 & x2 & Heq & Hi)%elem_of_lookup_imap).
    injection Heq as -> ->.
    simpl in Hin. apply list_elem_of_fmap in Hin as (j' & Heq & Hj).
    injection Heq as -> ->.
    exists x2. split; [done|]. by apply elem_of_matches.
  - intros (x & Hi & Hj). exists (i, x). split.
    + simpl. apply list_elem_of_fmap. exists j. split; [done|].
      by apply elem_of_matches.
    + apply elem_of_lookup_imap. by exists i, x.
Qed.

Lemma take_rows_lookup idx (s : Series) r v :
  take_rows idx s !! r = Some v →
  ∃ i, idx !! r = Some i ∧ v = default NaN (s !! i).
Proof.
  unfold take_rows. rewrite list_lookup_fmap.
  destruct (idx !! r) as [i|]; [|done]. intros [= <-]. by exists i.
Qed.

(** Taking rows that exist keeps a column aligned with its source. *)
Lemma aligned_take_rows K s ys vs idx :
  aligned K s ys vs → Forall (λ i, i < length K)%nat idx →
  aligned (take_rows idx K) (take_rows idx s) ys vs.
Proof.
  intros [Hlen Hrows] Hidx. split; [by rewrite !length_take_rows|].
  intros r y v (i & Hi & ->)%take_rows_lookup (i' & Hi' & ->)%take_rows_lookup.
  rewrite Hi in Hi'. injection Hi' as <-.
  rewrite Forall_forall in Hidx.
  assert (i < length K)%nat as HiK
    by (apply Hidx; by eapply list_elem_of_lookup_2).
  destruct (lookup_lt_is_Some_2 K i HiK) as [y Hy].
  destruct (lookup_lt_is_Some_2 s i) as [v Hv]; [lia|].
  rewrite Hy, Hv. simpl. by apply (Hrows i).
Qed.

(** The value column a join brings in is aligned with its own table. *)
Lemma aligned_joined lk rk vs :
  length rk = length vs →
  aligned (take_rows (join_pairs lk rk).*1 lk)
          (take_rows (join_pairs lk rk).*2 vs) rk vs.
Proof.
  intros Hlen. split; [by rewrite !length_take_rows, !length_fmap|].
  intros r y v (i & Hi & ->)%take_rows_lookup (j & Hj & ->)%take_rows_lookup.
  rewrite list_lookup_fmap in Hi, Hj.
  destruct (join_pairs lk rk !! r) as [[i' j']|] eqn:Hp; [|done].
  injection Hi as <-. injection Hj as <-.
  apply list_elem_of_lookup_2, elem_of_join_pairs in Hp as (x & Hx & Hy).
  exists j'. rewrite Hx. simpl. split; [done|].
  destruct (lookup_lt_is_Some_2 vs j') as [v Hv];
    [apply lookup_lt_Some in Hy; lia|].
  by rewrite Hv.
Qed.

Lemma join_pairs_left_rows lk rk :
  Forall (λ i, i < length lk)%nat (join_pairs lk rk).*1.
Proof.
  apply Forall_forall. intros i ([i' j] & -> & Hp)%list_elem_of_fmap.
  apply elem_of_join_pairs in Hp as (x & Hx & _). by eapply lookup_lt_Some.
Qed.

Lemma get_col_NoDup l s (t : DataFrame) :
  NoDup (labels t) → (l, s) ∈ t → get_col l t = Some s.
Proof.
  unfold labels. induction t as [|[l' s'] t IH]; [by intros _ ?%elem_of_nil|].
  cbn [fmap list_fmap fst]. intros [Hfresh Hnd]%NoDup_cons.
  intros [[= -> ->]|Hin]%elem_of_cons; simpl.
  - by rewrite decide_True.
  - rewrite decide_False; [auto|]. intros ->. apply Hfresh.
    apply list_elem_of_fmap. by exists (l, s).
Qed.

Lemma load_sources_frames read_csv pairs dfs :
  load_sources read_csv pairs = Ok dfs →
  dfs = (λ p, source_frame (source_of read_csv p)) <$> pairs.
Proof.
  revert dfs. induction pairs as [|[url column] pairs IH]; intros dfs.
  - by intros [= <-].
  - cbn [load_sources]. unfold mbind, result_bind.
    unfold source_of at 1. cbn [fmap list_fmap fst snd].
    destruct (read_csv url) as [t|] eqn:Ht; [|done].
    cbn [select]. unfold mbind, result_bind, getitem.
    destruct (get_col "year" t) as [ys|] eqn:Hys; [|done].
    destruct (get_col "ann" t) as [vs|] eqn:Hvs; [|done].
    destruct (load_sources read_csv pairs) as [dfs'|] eqn:Hrest; [|done].
    intros [= <-]. by rewrite (IH dfs').
Qed.

Lemma load_sources_Ok read_csv pairs :
  Forall (λ p : string * string,
            ∃ t, read_csv p.1 = Ok t ∧ is_Some (get_col "year" t)
                 ∧ is_Some (get_col "ann" t)) pairs →
  ∃ dfs, load_sources read_csv pairs = Ok dfs.
Proof.
  induction 1 as [|[url column] pairs (t & Ht & [ys Hys] & [vs Hvs]) _ [dfs IH]].
  - by exists [].
  - cbn [load_sources]. unfold mbind, result_bind. simpl in Ht. rewrite Ht.
    cbn [select]. unfold mbind, result_bind, getitem.
    rewrite Hys, Hvs, IH. eauto.
Qed.

(** Merging tables with distinct new labels, one after the other, when
    the merges complete: the labels line up in order, the columns already
    there stay aligned with whatever they were aligned with, and each new
    column is aligned with its source. *)
Lemma merge_all_frames K cols (srcs : list (string * (Series * Series))) out :
  NoDup (labels cols ++ srcs.*1) → "year" ∉ labels cols ++ srcs.*1 →
  merge_all (("year", K) :: cols) (source_frame <$> srcs) = Ok out →
  ∃ K' out_cols,
    out = ("year", K') :: out_cols
    ∧ labels out_cols = labels cols ++ srcs.*1
    ∧ (∀ l s, (l, s) ∈ cols →
         ∃ s', get_col l out_cols = Some s'
               ∧ ∀ ys vs, aligned K s ys vs → aligned K' s' ys vs)
    ∧ (∀ c ys vs, (c, (ys, vs)) ∈ srcs → length ys = length vs →
         ∃ s', get_col c out_cols = Some s' ∧ aligned K' s' ys vs).
Proof.
  revert K cols. induction srcs as [|[c [ys vs]] srcs IH]; intros K cols.
  - intros Hnd Hyear [= <-].
    change (([] : list (string * (Series * Series))).*1)
      with (@nil string) in *. rewrite app_nil_r in Hnd.
    exists K, cols. split; [done|]. split; [by rewrite app_nil_r|]. split.
    + intros l s Hin. exists s. split; [by apply get_col_NoDup|done].
    + by intros c ys vs ?%elem_of_nil.
  - cbn [fmap list_fmap fst]. intros Hnd Hyear.
    assert (Hc : (c ∉ labels cols) ∧ (c ≠ "year") ∧ ("year" ∉ labels cols)).
    { apply NoDup_app in Hnd as (_ & Hdisj & _).
      split; [|split].
      - intros Hin. apply (Hdisj c Hin). by left.
      - intros ->. apply Hyear. apply elem_of_app. right. by left.
      - intros Hin. apply Hyear. apply elem_of_app. by left. }
    destruct Hc as (Hc & Hcy & Hy).
    cbn [merge_all]. unfold mbind, result_bind.
    unfold source_frame at 1. cbn [fst snd].
    rewrite pd_merge_fresh by done. case_decide; [done|].
    set (idxL := (join_pairs K ys).*1). set (idxR := (join_pairs K ys).*2).
    set (cols1 := ((λ p : string * Series, (p.1, take_rows idxL p.2)) <$> cols)
                  ++ [(c, take_rows idxR vs)]).
    assert (Hlab : labels cols1 = labels cols ++ [c]).
    { unfold cols1, labels. rewrite fmap_app, <- list_fmap_compose.
      f_equal. }
    intros Hall.
    destruct (IH (take_rows idxL K) cols1)
      as (K' & out_cols & Hmerge & Hlabels & Hold & Hnew).
    { rewrite Hlab, <- app_assoc. done. }
    { rewrite Hlab, <- app_assoc. done. }
    { done. }
    exists K', out_cols. split; [done|].
    split; [by rewrite Hlabels, Hlab, <- app_assoc|]. split.
    + intros l s Hin.
      destruct (Hold l (take_rows idxL s)) as (s' & Hs' & Hal).
      { unfold cols1. apply elem_of_app. left.
        apply list_elem_of_fmap. by exists (l, s). }
      exists s'. split; [done|]. intros ys' vs' Ha. apply Hal.
      apply aligned_take_rows; [done|]. apply join_pairs_left_rows.
    + intros c' ys' vs' [[= -> -> ->]|Hin]%elem_of_cons Hlen.
      * destruct (Hold c (take_rows idxR vs)) as (s' & Hs' & Hal).
        { unfold cols1. apply elem_of_app. right. by left. }
        exists s'. split; [done|]. apply Hal. by apply aligned_joined.
      * by apply Hnew.
Qed.

(** Merging tables with distinct new labels whose "year" columns hold
    numbers: every merge completes. *)
Lemma merge_all_Ok K cols (srcs : list (string * (Series * Series))) :
  NoDup (labels cols ++ srcs.*1) → "year" ∉ labels cols ++ srcs.*1 →
  numeric K → Forall (λ src, numeric src.2.1) srcs →
  ∃ out, merge_all (("year", K) :: cols) (source_frame <$> srcs) = Ok out.
Proof.
  revert K cols. induction srcs as [|[c [ys vs]] srcs IH]; intros K cols.
  - intros _ _ _ _. by eexists.
  - cbn [fmap list_fmap fst]. intros Hnd Hyear HK Hsrcs.
    apply Forall_cons in Hsrcs as [Hys Hsrcs]. simpl in Hys.
    assert (Hc : (c ∉ labels cols) ∧ (c ≠ "year") ∧ ("year" ∉ labels cols)).
    { apply NoDup_app in Hnd as (_ & Hdisj & _).
      split; [|split].
      - intros Hin. apply (Hdisj c Hin). by left.
      - intros ->. apply Hyear. apply elem_of_app. right. by left.
      - intros Hin. apply Hyear. apply elem_of_app. by left. }
    destruct Hc as (Hc & Hcy & Hy).
    cbn [merge_all]. unfold mbind, result_bind.
    unfold source_frame at 1. cbn [fst snd].
    rewrite pd_merge_fresh by done.
    rewrite decide_False by by apply dtype_clash_numeric.
    set (idxL := (join_pairs K ys).*1). set (idxR := (join_pairs K ys).*2).
    set (cols1 := ((λ p : string * Series, (p.1, take_rows idxL p.2)) <$> cols)
                  ++ [(c, take_rows idxR vs)]).
    assert (Hlab : labels cols1 = labels cols ++ [c]).
    { unfold cols1, labels. rewrite fmap_app, <- list_fmap_compose.
      f_equal. }
    apply IH.
    + rewrite Hlab, <- app_assoc. done.
    + rewrite Hlab, <- app_assoc. done.
    + by apply numeric_take_rows.
    + done.
Qed.

Lemma source_of_label read_csv (pairs : list (string * string)) :
  (source_of read_csv <$> pairs).*1 = pairs.*2.
Proof.
  rewrite <- list_fmap_compose. apply list_fmap_ext. intros i p _.
  unfold source_of. simpl. by destruct (read_csv p.1).
Qed.

(** What Merge returns, when it returns, on pairs with distinct target
    names other than "year". *)
Lemma merge_climate_data_frames read_csv urls columns out :
  merge_climate_data read_csv urls columns = Ok out →
  NoDup (zip urls columns).*2 → "year" ∉ (zip urls columns).*2 →
  ∃ K' out_cols,
    out = ("year", K') :: out_cols
    ∧ labels out_cols = (zip urls columns).*2
    ∧ ∀ p, p ∈ zip urls columns →
        length (source_of read_csv p).2.1 = length (source_of read_csv p).2.2 →
        ∃ s', get_col p.2 out_cols = Some s'
              ∧ aligned K' s' (source_of read_csv p).2.1
                              (source_of read_csv p).2.2.
Proof.
  unfold merge_climate_data, mbind, result_bind.
  destruct (load_sources read_csv (zip urls columns)) as [dfs|e] eqn:Hload;
    [|done].
  apply load_sources_frames in Hload as ->.
  destruct (zip urls columns) as [|p0 pairs]; [done|].
  cbn [fmap list_fmap] in *. intros Hout Hnd Hyear.
  pose proof (source_of_label read_csv pairs) as Hlabs.
  assert (Hp0 : (source_of read_csv p0).1 = p0.2)
    by (unfold source_of; by destruct (read_csv p0.1)).
  destruct (source_of read_csv p0) as [c0 [ys0 vs0]] eqn:Hsrc0.
  simpl in Hp0. subst c0. unfold source_frame at 1 in Hout.
  cbn [fst snd] in Hout.
  rewrite (list_fmap_compose (source_of read_csv) source_frame) in Hout.
  destruct (merge_all_frames ys0 [(p0.2, vs0)] (source_of read_csv <$> pairs)
              out)
    as (K' & out_cols & Hmerge & Hlabels & Hold & Hnew).
  { rewrite Hlabs. done. }
  { rewrite Hlabs. done. }
  { done. }
  exists K', out_cols. split; [done|].
  split; [by rewrite Hlabels, Hlabs|].
  intros p [->|Hp]%elem_of_cons Hlen.
  - rewrite Hsrc0 in Hlen |- *. simpl in Hlen |- *.
    destruct (Hold p0.2 vs0) as (s' & Hs' & Hal); [by left|].
    exists s'. split; [done|]. apply Hal. split; [done|].
    intros r y v Hy Hv. by exists r.
  - destruct (source_of read_csv p) as [c [ys vs]] eqn:Hsrc.
    assert (c = p.2) as ->.
    { unfold source_of in Hsrc. by destruct (read_csv p.1); injection Hsrc. }
    simpl in *. apply Hnew; [|done].
    apply list_elem_of_fmap. exists p. by rewrite Hsrc.
Qed.

(** Merge returns a table on at least one pair when every paired source
    is read and holds a "year" column of numbers and an "ann" column, and
    the target names are distinct and other than "year". *)
Lemma merge_climate_data_Ok read_csv urls columns :
  zip urls columns ≠ [] →
  (∀ url, url ∈ (zip urls columns).*1 →
     ∃ t ys, read_csv url = Ok t ∧ get_col "year" t = Some ys ∧ numeric ys
             ∧ is_Some (get_col "ann" t)) →
  NoDup (zip urls columns).*2 → "year" ∉ (zip urls columns).*2 →
  ∃ out, merge_climate_data read_csv urls columns = Ok out.
Proof.
  intros Hne Hsrc Hnd Hyear.
  destruct (load_sources_Ok read_csv (zip urls columns)) as [dfs Hload].
  { apply Forall_forall. intros p Hp.
    destruct (Hsrc p.1) as (t & ys & Ht & Hys & _ & Hann);
      [apply list_elem_of_fmap; by exists p|].
    exists t. rewrite Hys. eauto. }
  unfold merge_climate_data, mbind, result_bind. rewrite Hload.
  apply load_sources_frames in Hload as ->.
  assert (Hnum : Forall (λ src : string * (Series * Series), numeric src.2.1)
                   (source_of read_csv <$> zip urls columns)).
  { apply Forall_fmap, Forall_forall. intros p Hp. simpl.
    destruct (Hsrc p.1) as (t & ys & Ht & Hys & Hn & _);
      [apply list_elem_of_fmap; by exists p|].
    unfold source_of. rewrite Ht, Hys. done. }
  destruct (zip urls columns) as [|p0 pairs]; [done|]. clear Hne.
  cbn [fmap list_fmap] in *.
  apply Forall_cons in Hnum as [Hnum0 Hnum].
  pose proof (source_of_label read_csv pairs) as Hlabs.
  assert (Hp0 : (source_of read_csv p0).1 = p0.2)
    by (unfold source_of; by destruct (read_csv p0.1)).
  destruct (source_of read_csv p0) as [c0 [ys0 vs0]] eqn:Hsrc0.
  simpl in Hp0, Hnum0. subst c0. unfold source_frame at 1. cbn [fst snd].
  rewrite (list_fmap_compose (source_of read_csv) source_frame).
  apply (merge_all_Ok ys0 [(p0.2, vs0)] (source_of read_csv <$> pairs)).
  - rewrite Hlabs. done.
  - rewrite Hlabs. done.
  - done.
  - done.
Qed.

(** X10: on at least one pair, with every paired source read as a table
    with distinct labels that holds a "year" column of numbers and an
    "ann" column, and the target names distinct and other than "year",
    Merge returns a table whose columns are "year" followed by the target
    names in the order of the pairs. *)
Theorem merge_climate_data_columns
    (read_csv : string → result DataFrame) (urls columns : list string) :
  zip urls columns ≠ [] →
  (∀ url, url ∈ (zip urls columns).*1 →
     ∃ t ys, read_csv url = Ok t ∧ NoDup (labels t)
             ∧ get_col "year" t = Some ys ∧ numeric ys
             ∧ is_Some (get_col "ann" t)) →
  NoDup (zip urls columns).*2 → "year" ∉ (zip urls columns).*2 →
  ∃ out, merge_climate_data read_csv urls columns = Ok out
         ∧ labels out = "year" :: (zip urls columns).*2.
Proof.
  intros Hne Hsrc Hnd Hyear.
  destruct (merge_climate_data_Ok read_csv urls columns) as [out Hout];
    [done| |done|done|].
  { intros url Hurl.
    destruct (Hsrc url Hurl) as (t & ys & ? & _ & ? & ? & ?). by exists t, ys. }
  destruct (merge_climate_data_frames _ _ _ _ Hout Hnd Hyear)
    as (K' & out_cols & -> & Hlabels & _).
  eexists. split; [done|]. unfold labels in *. cbn [fmap list_fmap fst].
  by rewrite Hlabels.
Qed.

Lemma merge_climate_data_columns_witness :
  ∃ out, merge_climate_data met_office ["England.txt"; "Wales.txt"]
           ["england"; "wales"] = Ok out
         ∧ labels out
           = "year" :: (zip ["England.txt"; "Wales.txt"]
                            ["england"; "wales"]).*2.
Proof.
  apply (merge_climate_data_columns met_office ["England.txt"; "Wales.txt"]
           ["england"; "wales"]).
  - discriminate.
  - intros url Hurl. simpl in Hurl.
    repeat (apply elem_of_cons in Hurl as [->|Hurl];
            [eexists _, _; split; [reflexivity|];
             split; [apply (bool_decide_unpack _); vm_compute; exact I|];
             split; [reflexivity|];
             split; [unfold numeric; repeat constructor|simpl; eauto]|]).
    by apply elem_of_nil in Hurl.
  - simpl. apply NoDup_cons. split; [|apply NoDup_singleton].
    intros Hin%list_elem_of_singleton. discriminate.
  - simpl. intros Hin.
    repeat (apply elem_of_cons in Hin as [Hin|Hin]; [discriminate|]).
    by apply elem_of_nil in Hin.
Defined.

(** X11: when Merge returns a table, with target names distinct and other
    than "year", the column under a pair's target name is row-aligned with
    that pair's source: it is as long as the "year" column, and at every
    row its value is the source's "ann" value at a source row with the
    same year. *)
Theorem merge_climate_data_aligned
    (read_csv : string → result DataFrame) (urls columns : list string)
    (out t : DataFrame) (url c : string) (ys vs : Series) :
  merge_climate_data read_csv urls columns = Ok out →
  NoDup (zip urls columns).*2 → "year" ∉ (zip urls columns).*2 →
  (url, c) ∈ zip urls columns → read_csv url = Ok t →
  get_col "year" t = Some ys → get_col "ann" t = Some vs →
  length ys = length vs →
  ∃ years s, get_col "year" out = Some years ∧ get_col c out = Some s
             ∧ aligned years s ys vs.
Proof.
  intros Hout Hnd Hyear Hp Ht Hys Hvs Hlen.
  destruct (merge_climate_data_frames _ _ _ _ Hout Hnd Hyear)
    as (K' & out_cols & -> & _ & Hal).
  assert (Hsrc : source_of read_csv (url, c) = (c, (ys, vs)))
    by (unfold source_of; simpl; by rewrite Ht, Hys, Hvs).
  destruct (Hal (url, c) Hp) as (s' & Hs' & Ha); [by rewrite Hsrc|].
  rewrite Hsrc in Ha. simpl in Hs', Ha.
  exists K', s'. split; [reflexivity|]. split; [|done].
  cbn [get_col]. rewrite decide_False; [done|]. intros Heq. apply Hyear.
  apply list_elem_of_fmap. exists (url, c). split; [by rewrite Heq|done].
Qed.

Lemma merge_climate_data_aligned_witness :
  ∃ out,
    merge_climate_data met_office ["England.txt"; "Wales.txt"]
      ["england"; "wales"] = Ok out
    ∧ ∃ years s,
        get_col "year" out = Some years ∧ get_col "wales" out = Some s
        ∧ aligned years s [int 2001; int 2002; int 2003]
                          [int 8; int 9; int 10].
Proof.
  eexists. split; [vm_compute; reflexivity|].
  apply (merge_climate_data_aligned met_office
           ["England.txt"; "Wales.txt"] ["england"; "wales"]
           _ wales_src "Wales.txt" "wales").
  - vm_compute. reflexivity.
  - simpl. apply NoDup_cons. split; [|apply NoDup_singleton].
    intros Hin%list_elem_of_singleton. discriminate.
  - simpl. intros Hin.
    repeat (apply elem_of_cons in Hin as [Hin|Hin]; [discriminate|]).
    by apply elem_of_nil in Hin.
  - simpl. right. left.
  - reflexivity.
  - reflexivity.
  - reflexivity.
  - reflexivity.
Defined.

(** ** plot_unclaimed_estates: the bars *)

Lemma mask_rows_dt_year ds bound :
  mask_rows (after bound <$> ds) (dt_year ds) = int <$> years_after bound ds.
Proof.
  unfold mask_rows, dt_year, years_after.
  induction ds as [|[d|] ds IH]; [done|..];
    cbn [fmap list_fmap zip zip_with omap list_omap after];
    rewrite filter_cons; cbn [fst].
  - destruct (bool_decide (bound < year d)).
    + rewrite decide_True by done. cbn [fmap list_fmap snd]. by rewrite IH.
    + rewrite decide_False by done. apply IH.
  - rewrite decide_False by done. apply IH.
Qed.

Lemma elem_of_years_after z bound ds :
  z ∈ years_after bound ds ↔ bound < z ∧ ∃ d, Some d ∈ ds ∧ year d = z.
Proof.
  unfold years_after. rewrite list_elem_of_omap. split.
  - intros ([d|] & Hd & Hz); [|done].
    case_bool_decide; [|done]. injection Hz as <-. eauto.
  - intros (Hz & d & Hd & <-). exists (Some d). split; [done|].
    by rewrite bool_decide_true.
Qed.

Lemma int_inj z1 z2 : int z1 = int z2 → z1 = z2.
Proof.
  unfold int. intros H. apply Z2Qc_inj.
  by assert (Num (Qc_of_Z z1) = Num (Qc_of_Z z2) → Qc_of_Z z1 = Qc_of_Z z2)
    as -> by congruence.
Qed.

Lemma count_of_int z (zs : list Z) :
  count_of (int z) (int <$> zs)
  = Z.of_nat (length (filter (λ x, x = z) zs)).
Proof.
  induction zs as [|x zs IH]; [reflexivity|].
  cbn [fmap list_fmap]. rewrite count_of_cons, IH, filter_cons.
  destruct (decide (x = z)) as [->|Hne].
  - rewrite decide_True by done. simpl length. lia.
  - rewrite decide_False; [lia|]. by intros ?%int_inj.
Qed.

Lemma count_years_after strptime format bound z dates :
  bound < z →
  length (filter (λ x, x = z)
            (years_after bound (parse_cell strptime format <$> dates)))
  = length (filter (λ v, parsed_year strptime format v = Some z) dates).
Proof.
  intros Hz. unfold years_after, parsed_year.
  induction dates as [|v dates IH]; [done|].
  cbn [fmap list_fmap omap list_omap]. rewrite (filter_cons _ v).
  destruct (parse_cell strptime format v) as [d|];
    cbn [fmap option_fmap option_map].
  - case_bool_decide as Hd.
    + rewrite filter_cons.
      destruct (decide (year d = z)) as [Heq|Hne].
      * rewrite decide_True by congruence. simpl length. by rewrite <- IH.
      * rewrite decide_False by congruence. apply IH.
    + rewrite decide_False by (intros [= ?]; lia). apply IH.
  - rewrite decide_False by done. apply IH.
Qed.

Lemma index_le_total : Total index_le.
Proof.
  intros [[x| | |] ?] [[y| | |] ?]; unfold index_le; simpl; auto.
  destruct (Qclt_le_dec x y); [left; by apply Qclt_le_weak|by right].
Qed.

(** Distinct numeric keys in ascending order are in strictly ascending
    order. *)
Lemma sorted_index_strict (yc : list (value * Z)) :
  Sorted index_le yc → NoDup yc.*1 →
  Forall (λ p : value * Z, ∃ z, p.1 = int z) yc →
  Sorted year_lt yc.*1.
Proof.
  induction 1 as [|a l Hsorted IH Hhd]; [constructor|].
  cbn [fmap list_fmap]. intros [Hfresh Hnd]%NoDup_cons [Ha Hl]%Forall_cons.
  constructor; [by apply IH|].
  destruct Hhd as [|b l Hab]; [constructor|].
  cbn [fmap list_fmap]. constructor.
  apply Forall_cons in Hl as [[zb Hb] _]. destruct Ha as [za Ha].
  unfold index_le in Hab. unfold year_lt. rewrite Ha, Hb in *.
  unfold int in *. apply Qcle_lt_or_eq in Hab as [?|Heq]; [done|].
  exfalso. apply Hfresh. cbn [fmap list_fmap]. rewrite Hb. unfold int.
  rewrite Heq. by left.
Qed.

Lemma plot_unclaimed_estates_run
    (read_csv : string → result DataFrame)
    (strptime : string → value → option datetime)
    (file_path date_format : string) (w : world)
    (data : DataFrame) (dates : Series) :
  read_csv file_path = Ok data →
  get_col "Date of Death" data = Some dates →
  (∀ v, v ∈ dates → isna v = false → is_Some (strptime date_format v)) →
  let yearly_counts :=
    sort_index (value_counts
      (int <$> years_after 1999
                 (parse_cell strptime date_format <$> dates))) in
  plot_unclaimed_estates read_csv strptime file_path date_format w
  = (Ok (),
     World (objects w)
           (canvas w ++ [figure; bar yearly_counts.*1 yearly_counts.*2;
                         xlabel "Unclaimed Year"; ylabel "Count";
                         title "Unclaimed House since 2000";
                         xticks yearly_counts.*1; tight_layout; show])).
Proof.
  intros Hread Hdates Hparse.
  unfold plot_unclaimed_estates, mbind, M_bind, lift, plt, getitem.
  rewrite Hread, Hdates, (to_datetime_Ok strptime _ _ Hparse).
  rewrite get_col_setitem_eq, series_gt_dt_year.
  rewrite get_col_mask_table, get_col_setitem_eq.
  cbn [fmap option_fmap option_map objects canvas].
  rewrite mask_rows_dt_year. by rewrite <- !app_assoc.
Qed.

Lemma filter_eq_nonempty (z : Z) (zs : list Z) :
  z ∈ zs ↔ (0 < length (filter (λ x, x = z) zs))%nat.
Proof.
  split.
  - intros Hz. assert (z ∈ filter (λ x, x = z) zs) as Hin
      by (by apply list_elem_of_filter).
    destruct (filter (λ x, x = z) zs); [by apply elem_of_nil in Hin|].
    simpl. lia.
  - intros Hlen. destruct (filter (λ x, x = z) zs) as [|x l] eqn:E;
      [simpl in Hlen; lia|].
    assert (x ∈ filter (λ x, x = z) zs) as [-> ?]%list_elem_of_filter;
      [rewrite E; left|done].
Qed.

(** X12: when the file is read, has the date column, and every date
    present in it matches the format, the bars are in strictly ascending
    order of year, and there is exactly one bar for each year after 1999
    that some row has, its height the number of rows of that year. *)
Theorem yearly_bars
    (read_csv : string → result DataFrame)
    (strptime : string → value → option datetime)
    (file_path date_format : string) (w : world)
    (data : DataFrame) (dates : Series) :
  read_csv file_path = Ok data →
  get_col "Date of Death" data = Some dates →
  (∀ v, v ∈ dates → isna v = false → is_Some (strptime date_format v)) →
  ∃ years heights,
    plot_unclaimed_estates read_csv strptime file_path date_format w
    = (Ok (),
       World (objects w)
             (canvas w ++ [figure; bar years heights;
                           xlabel "Unclaimed Year"; ylabel "Count";
                           title "Unclaimed House since 2000";
                           xticks years; tight_layout; show]))
    ∧ length heights = length years
    ∧ Sorted year_lt years
    ∧ ∀ v n, (v, n) ∈ zip years heights ↔
        ∃ z, v = int z ∧ 1999 < z ∧ 0 < n
             ∧ n = Z.of_nat (length (filter
                     (λ x, parsed_year strptime date_format x = Some z)
                     dates)).
Proof.
  intros Hread Hdates Hparse.
  pose proof (plot_unclaimed_estates_run read_csv strptime file_path
                date_format w data dates Hread Hdates Hparse) as Hrun.
  simpl in Hrun.
  set (zs := years_after 1999 (parse_cell strptime date_format <$> dates))
    in *.
  set (yc := sort_index (value_counts (int <$> zs))) in *.
  assert (Hperm : yc ≡ₚ value_counts (int <$> zs))
    by apply merge_sort_Permutation.
  assert (Hmem : ∀ v n, (v, n) ∈ yc ↔
            ∃ z, v = int z ∧ 1999 < z ∧ 0 < n
                 ∧ n = Z.of_nat (length (filter
                         (λ x, parsed_year strptime date_format x = Some z)
                         dates))).
  { intros v n. rewrite Hperm, elem_of_value_counts, list_elem_of_fmap. split.
    - intros ((z & -> & Hz) & _ & ->). exists z.
      pose proof Hz as [Hlt _]%elem_of_years_after.
      rewrite count_of_int. split; [done|]. split; [done|].
      split; [apply filter_eq_nonempty in Hz; lia|].
      unfold zs. by rewrite count_years_after.
    - intros (z & -> & Hlt & Hpos & ->).
      assert (z ∈ zs) as Hz.
      { apply filter_eq_nonempty. unfold zs.
        rewrite count_years_after by done. lia. }
      split; [by exists z|]. split; [done|].
      rewrite count_of_int. unfold zs. by rewrite count_years_after. }
  exists yc.*1, yc.*2. split; [done|]. split; [by rewrite !length_fmap|].
  split; [|by rewrite zip_fst_snd].
  apply sorted_index_strict.
  - apply Sorted_merge_sort, index_le_total.
  - rewrite Hperm, (value_counts_Permutation (int <$> zs)).
    rewrite <- list_fmap_compose.
    change (fst ∘ (λ v, (v, count_of v (int <$> zs)))) with (@id value).
    rewrite list_fmap_id. apply NoDup_unique.
  - apply Forall_forall. intros [v n] (z & -> & _)%Hmem. by exists z.
Qed.

Lemma yearly_bars_witness :
  ∃ years heights,
    plot_unclaimed_estates disk sample_strptime
      "UnclaimedEstatesList.csv" "%d/%m/%Y" blank
    = (Ok (),
       World (objects blank)
             (canvas blank ++ [figure; bar years heights;
                               xlabel "Unclaimed Year"; ylabel "Count";
                               title "Unclaimed House since 2000";
                               xticks years; tight_layout; show]))
    ∧ length heights = length years
    ∧ Sorted year_lt years
    ∧ ∀ v n, (v, n) ∈ zip years heights ↔
        ∃ z, v = int z ∧ 1999 < z ∧ 0 < n
             ∧ n = Z.of_nat (length (filter
                     (λ x, parsed_year sample_strptime "%d/%m/%Y" x = Some z)
                     [Str "03/02/2001"; Str "17/11/1999"; NaN;
                      Str "25/12/2001"; Str "01/01/2000"])).
Proof.
  apply (yearly_bars disk sample_strptime
           "UnclaimedEstatesList.csv" "%d/%m/%Y" blank register).
  - reflexivity.
  - reflexivity.
  - intros v Hv Hna. unfold is_Some.
    repeat (apply elem_of_cons in Hv as [Hv|Hv];
            [subst v; first [discriminate Hna | vm_compute; eauto]|]).
    by apply elem_of_nil in Hv.
Defined.

(** ** plot_marital_status_distribution: the slices *)

Section PieSlices.
Context {F64 : Float64}.

Lemma relabel_not_small small x : x ∉ small → relabel small x = x.
Proof. intros Hx. unfold relabel. by rewrite decide_False. Qed.

Lemma relabel_small small x : x ∈ small → relabel small x = Str "Other".
Proof. intros Hx. unfold relabel. by rewrite decide_True. Qed.

(** X13: when the table read has distinct labels, some row has a status
    and no category is below the threshold, nothing is relabelled: the
    pie shows each distinct status with its own count, as [value_counts]
    of the column gives them. *)
Theorem pie_nothing_rare
    (read_csv : string → result DataFrame) (file_path : string)
    (threshold : Qc) (w : world) (data : DataFrame) (status : Series) :
  read_csv file_path = Ok data → NoDup (labels data) →
  get_col "Marital Status" data = Some status →
  (∃ v, v ∈ status ∧ isna v = false) →
  (∀ c, ¬ rare threshold status c) →
  plot_marital_status_distribution read_csv file_path threshold w
  = (Ok (),
     World (objects w)
           (canvas w ++ [figure;
                         pie (value_counts status).*2 (value_counts status).*1;
                         title "Distribution of Marital Status";
                         axis "equal"; show])).
Proof.
  intros Hread _ Hstatus Hsome Hnone.
  assert (relabel (small_categories threshold (value_counts status))
            <$> status = status) as Hsame.
  { rewrite <- (list_fmap_id status) at 3. apply list_fmap_ext.
    intros i x _. apply relabel_not_small.
    intros Hx%elem_of_small_categories. by apply (Hnone x). }
  rewrite (plot_marital_status_distribution_run _ _ _ _ _ _ Hread Hstatus);
    rewrite Hsame; [done|].
  by apply value_counts_nonempty.
Qed.

Lemma relabel_isna_small threshold status x :
  isna (relabel (small_categories threshold (value_counts status)) x)
  = isna x.
Proof.
  apply relabel_isna. intros c Hc%elem_of_small_categories. apply Hc.
Qed.

(** X14: a category that is not below the threshold, other than "Other",
    keeps a slice of its own, with the number of rows holding it. *)
Theorem pie_common_category_kept
    (read_csv : string → result DataFrame) (file_path : string)
    (threshold : Qc) (w : world) (data : DataFrame) (status : Series)
    (c : value) :
  read_csv file_path = Ok data →
  get_col "Marital Status" data = Some status →
  c ∈ status → isna c = false → ¬ rare threshold status c →
  c ≠ Str "Other" →
  ∃ slices slice_labels,
    plot_marital_status_distribution read_csv file_path threshold w
    = (Ok (),
       World (objects w)
             (canvas w ++ [figure; pie slices slice_labels;
                           title "Distribution of Marital Status";
                           axis "equal"; show]))
    ∧ (c, count_of c status) ∈ zip slice_labels slices.
Proof.
  intros Hread Hstatus Hc Hna Hcommon Hother.
  set (small := small_categories threshold (value_counts status)).
  assert (Hcs : c ∉ small)
    by (by intros ?%elem_of_small_categories).
  eexists _, _. split.
  { apply (plot_marital_status_distribution_run _ _ _ _ _ _ Hread Hstatus).
    apply value_counts_nonempty. exists c. split; [|done].
    rewrite <- (relabel_not_small small c Hcs).
    by apply list_elem_of_fmap_2. }
  rewrite zip_fst_snd. apply elem_of_value_counts.
  split; [|split; [done|]].
  - rewrite <- (relabel_not_small small c Hcs).
    by apply list_elem_of_fmap_2.
  - rewrite count_of_fmap. unfold count_of. do 2 f_equal.
    apply list_filter_iff. intros x. unfold relabel.
    case_decide; [|done]. split; [by intros ->|congruence].
Qed.

Lemma NoDup_all_same (x : value) (l : list value) :
  NoDup l → (∀ y, y ∈ l → y = x) → x ∈ l → l = [x].
Proof.
  intros Hnd Hall Hx. destruct l as [|a l]; [by apply elem_of_nil in Hx|].
  rewrite (Hall a) in * by left. f_equal.
  destruct l as [|b l]; [done|]. exfalso.
  apply NoDup_cons in Hnd as [Hfresh _]. apply Hfresh.
  rewrite (Hall b) by (right; left). left.
Qed.

(** X15: when the table read has distinct labels, every category is
    below the threshold, as the program compares them, and some row has a
    status, the pie is the single slice "Other", counting every row that
    has a status. *)
Theorem pie_everything_rare
    (read_csv : string → result DataFrame) (file_path : string)
    (threshold : Qc) (w : world) (data : DataFrame) (status : Series)
    (c0 : value) :
  read_csv file_path = Ok data → NoDup (labels data) →
  get_col "Marital Status" data = Some status →
  c0 ∈ status → isna c0 = false →
  (∀ c, c ∈ status → isna c = false → rare threshold status c) →
  plot_marital_status_distribution read_csv file_path threshold w
  = (Ok (),
     World (objects w)
           (canvas w
            ++ [figure;
                pie [Z.of_nat (length (filter (λ v, isna v = false) status))]
                    [Str "Other"];
                title "Distribution of Marital Status";
                axis "equal"; show])).
Proof.
  intros Hread _ Hstatus Hc0 Hna0 Hall.
  rewrite (plot_marital_status_distribution_run _ _ _ _ _ _ Hread Hstatus).
  2:{ apply value_counts_nonempty. exists (relabel
        (small_categories threshold (value_counts status)) c0).
      split; [by apply list_elem_of_fmap_2|].
      by rewrite relabel_isna_small. }
  set (small := small_categories threshold (value_counts status)).
  set (relabelled := relabel small <$> status).
  assert (Hpresent : ∀ y, y ∈ filter (λ v, isna v = false) relabelled
                          ↔ y = Str "Other").
  { intros y. rewrite list_elem_of_filter. unfold relabelled.
    rewrite list_elem_of_fmap. split.
    - intros (Hna & x & -> & Hx). apply relabel_small.
      apply elem_of_small_categories, Hall; [done|].
      by rewrite <- (relabel_isna_small threshold status x).
    - intros ->. split; [done|]. exists c0. split; [|done].
      symmetry. apply relabel_small.
      by apply elem_of_small_categories, Hall. }
  assert (Hunique : unique (filter (λ v, isna v = false) relabelled)
                    = [Str "Other"]).
  { apply NoDup_all_same; [apply NoDup_unique|..].
    - intros y Hy. rewrite elem_of_unique in Hy.
      by apply (proj1 (Hpresent y)).
    - apply elem_of_unique. by apply (proj2 (Hpresent _)). }
  unfold value_counts. rewrite Hunique. cbn [fmap list_fmap].
  assert (Hcount : count_of (Str "Other") relabelled
                   = Z.of_nat (length (filter (λ v, isna v = false) status))).
  { unfold relabelled. rewrite count_of_fmap. do 2 f_equal.
    apply filter_ext_elem_of. intros x Hx. split.
    - intros Hrel. rewrite <- (relabel_isna_small threshold status x).
      fold small. by rewrite Hrel.
    - intros Hna. apply relabel_small.
      by apply elem_of_small_categories, Hall. }
  rewrite Hcount. reflexivity.
Qed.

Lemma NoDup_value_counts_labels s : NoDup (value_counts s).*1.
Proof.
  rewrite (value_counts_Permutation s), <- list_fmap_compose.
  change (fst ∘ (λ v, (v, count_of v s))) with (@id value).
  rewrite list_fmap_id. apply NoDup_unique.
Qed.

Lemma count_of_pos c s : c ∈ s → 0 < count_of c s.
Proof.
  intros Hc. unfold count_of.
  assert (c ∈ filter (λ x, x = c) s) as Hin by (by apply list_elem_of_filter).
  destruct (filter (λ x, x = c) s); [by apply elem_of_nil in Hin|].
  simpl length. lia.
Qed.

Lemma HdRel_insert_count q p l :
  more_frequent q p → HdRel more_frequent q l →
  HdRel more_frequent q (insert_count p l).
Proof.
  intros Hqp Hql. destruct l as [|r l]; simpl; [by constructor|].
  case_decide; [|by constructor].
  apply HdRel_inv in Hql. by constructor.
Qed.

Lemma Sorted_insert_count p l :
  Sorted more_frequent l → Sorted more_frequent (insert_count p l).
Proof.
  induction 1 as [|q l Hs IH Hhd]; simpl; [by repeat constructor|].
  case_decide as Hlt.
  - constructor; [done|]. apply HdRel_insert_count; [|done].
    unfold more_frequent. lia.
  - constructor; [by constructor|]. constructor. unfold more_frequent. lia.
Qed.

Lemma Sorted_sort_counts l : Sorted more_frequent (sort_counts l).
Proof.
  induction l as [|p l IH]; simpl; [constructor|].
  by apply Sorted_insert_count.
Qed.

Lemma Sorted_value_counts s :
  Sorted (λ a b : Z, b ≤ a) (value_counts s).*2.
Proof.
  assert (Hs : Sorted more_frequent (value_counts s))
    by (unfold value_counts; apply Sorted_sort_counts).
  induction Hs as [|a l _ IH Hhd]; [constructor|].
  cbn [fmap list_fmap]. constructor; [done|].
  destruct Hhd; constructor. done.
Qed.

(** X16: when the table read has distinct labels and some row has a
    status, the pie is drawn, and its slices have distinct labels, none of
    them missing, each counts at least one row, and they come from the
    largest count to the smallest. *)
Theorem pie_slices_ordered
    (read_csv : string → result DataFrame) (file_path : string)
    (threshold : Qc) (w : world) (data : DataFrame) (status : Series) :
  read_csv file_path = Ok data → NoDup (labels data) →
  get_col "Marital Status" data = Some status →
  (∃ v, v ∈ status ∧ isna v = false) →
  ∃ slices slice_labels,
    plot_marital_status_distribution read_csv file_path threshold w
    = (Ok (),
       World (objects w)
             (canvas w ++ [figure; pie slices slice_labels;
                           title "Distribution of Marital Status";
                           axis "equal"; show]))
    ∧ NoDup slice_labels
    ∧ Forall (λ c, isna c = false) slice_labels
    ∧ Forall (λ n, 0 < n) slices
    ∧ Sorted (λ a b : Z, b ≤ a) slices.
Proof.
  intros Hread _ Hstatus (v & Hv & Hna). eexists _, _. split.
  { apply (plot_marital_status_distribution_run _ _ _ _ _ _ Hread Hstatus).
    apply value_counts_nonempty.
    exists (relabel (small_categories threshold (value_counts status)) v).
    split; [by apply list_elem_of_fmap_2|].
    by rewrite relabel_isna_small. }
  split; [apply NoDup_value_counts_labels|].
  split; [|split; [|apply Sorted_value_counts]].
  - apply Forall_forall. intros c Hc%elem_of_value_counts_labels. apply Hc.
  - apply Forall_forall. intros n ([c n'] & -> & Hin)%list_elem_of_fmap.
    apply elem_of_value_counts in Hin as (Hc & _ & ->). by apply count_of_pos.
Qed.

(** X20: when no row has a status, the call opens the figure and then
    raises: the pie has no slice to draw. *)
Theorem pie_no_status
    (read_csv : string → result DataFrame) (file_path : string)
    (threshold : Qc) (w : world) (data : DataFrame) (status : Series) :
  read_csv file_path = Ok data → NoDup (labels data) →
  get_col "Marital Status" data = Some status →
  (∀ v, v ∈ status → isna v = true) →
  plot_marital_status_distribution read_csv file_path threshold w
  = (Raise ValueError, World (objects w) (canvas w ++ [figure])).
Proof.
  intros Hread _ Hstatus Hall.
  apply (plot_marital_status_distribution_no_slice _ _ _ _ _ _ Hread Hstatus).
  apply value_counts_empty. intros v (x & -> & Hx)%list_elem_of_fmap.
  rewrite relabel_isna_small. by apply Hall.
Qed.

End PieSlices.

Section PieSlices_samples.
#[local] Existing Instance exact64.

Lemma pie_nothing_rare_witness :
  plot_marital_status_distribution disk "UnclaimedEstatesList.csv"
    (Q2Qc (1 # 8)) blank
  = (Ok (),
     World (objects blank)
           (canvas blank
            ++ [figure;
                pie (value_counts [Str "Single"; Str "Widow"; NaN;
                                   Str "Single"; Str "Single"]).*2
                    (value_counts [Str "Single"; Str "Widow"; NaN;
                                   Str "Single"; Str "Single"]).*1;
                title "Distribution of Marital Status";
                axis "equal"; show])).
Proof.
  apply (pie_nothing_rare disk "UnclaimedEstatesList.csv" (Q2Qc (1 # 8))
           blank register).
  - reflexivity.
  - apply (bool_decide_unpack _). vm_compute. exact I.
  - reflexivity.
  - exists (Str "Single"). split; [left|reflexivity].
  - intros c (Hc & _ & Hlt).
    repeat (apply elem_of_cons in Hc as [Hc|Hc];
            [subst c; vm_compute in Hlt; discriminate|]).
    by apply elem_of_nil in Hc.
Defined.

Lemma pie_common_category_kept_witness :
  ∃ slices slice_labels,
    plot_marital_status_distribution disk "UnclaimedEstatesList.csv"
      (Q2Qc (1 # 2)) blank
    = (Ok (),
       World (objects blank)
             (canvas blank ++ [figure; pie slices slice_labels;
                               title "Distribution of Marital Status";
                               axis "equal"; show]))
    ∧ (Str "Single",
       count_of (Str "Single")
         [Str "Single"; Str "Widow"; NaN; Str "Single"; Str "Single"])
      ∈ zip slice_labels slices.
Proof.
  apply (pie_common_category_kept disk "UnclaimedEstatesList.csv"
           (Q2Qc (1 # 2)) blank register).
  - reflexivity.
  - reflexivity.
  - left.
  - reflexivity.
  - intros (_ & _ & Hlt). vm_compute in Hlt. discriminate.
  - discriminate.
Defined.

Lemma pie_everything_rare_witness :
  plot_marital_status_distribution disk "UnclaimedEstatesList.csv"
    (Q2Qc (7 # 8)) blank
  = (Ok (),
     World (objects blank)
           (canvas blank
            ++ [figure;
                pie [Z.of_nat (length (filter (λ v, isna v = false)
                        [Str "Single"; Str "Widow"; NaN;
                         Str "Single"; Str "Single"]))]
                    [Str "Other"];
                title "Distribution of Marital Status";
                axis "equal"; show])).
Proof.
  apply (pie_everything_rare disk "UnclaimedEstatesList.csv" (Q2Qc (7 # 8))
           blank register _ (Str "Single")).
  - reflexivity.
  - apply (bool_decide_unpack _). vm_compute. exact I.
  - reflexivity.
  - left.
  - reflexivity.
  - intros c Hc Hna. split; [done|]. split; [done|].
    repeat (apply elem_of_cons in Hc as [Hc|Hc];
            [subst c; first [discriminate Hna | vm_compute; reflexivity]|]).
    by apply elem_of_nil in Hc.
Defined.

Lemma pie_slices_ordered_witness :
  ∃ slices slice_labels,
    plot_marital_status_distribution disk "UnclaimedEstatesList.csv"
      default_threshold blank
    = (Ok (),
       World (objects blank)
             (canvas blank ++ [figure; pie slices slice_labels;
                               title "Distribution of Marital Status";
                               axis "equal"; show]))
    ∧ NoDup slice_labels
    ∧ Forall (λ c, isna c = false) slice_labels
    ∧ Forall (λ n, 0 < n) slices
    ∧ Sorted (λ a b : Z, b ≤ a) slices.
Proof.
  apply (pie_slices_ordered disk "UnclaimedEstatesList.csv" default_threshold
           blank register
           [Str "Single"; Str "Widow"; NaN; Str "Single"; Str "Single"]).
  - reflexivity.
  - apply (bool_decide_unpack _). vm_compute. exact I.
  - reflexivity.
  - exists (Str "Single"). split; [left|reflexivity].
Defined.

Lemma pie_no_status_witness :
  plot_marital_status_distribution disk "NoStatus.csv" default_threshold
    blank
  = (Raise ValueError, World (objects blank) (canvas blank ++ [figure])).
Proof.
  apply (pie_no_status disk "NoStatus.csv" default_threshold blank
           unmarried_register [NaN; NaN]).
  - reflexivity.
  - apply (bool_decide_unpack _). vm_compute. exact I.
  - reflexivity.
  - intros v Hv.
    repeat (apply elem_of_cons in Hv as [->|Hv]; [reflexivity|]).
    by apply elem_of_nil in Hv.
Defined.

End PieSlices_samples.

(** ** plot_moving_averages: when it completes *)

Section Completes.
Context {F64 : Float64}.

Lemma moving_average_loop_total df window columns w t :
  objects w !! df = Some t → is_Some (get_col "year" t) →
  NoDup columns →
  (∀ c, c ∈ columns → ∃ s, get_col c t = Some s ∧ numeric s) →
  0 ≤ window < 2 ^ 63 →
  ∃ w', moving_average_loop df window columns w = (Ok (), w').
Proof.
  revert w t. induction columns as [|column rest IH];
    intros w t Ht Hy Hnd Hcols Hw; [by eexists|].
  apply NoDup_cons in Hnd as [Hfresh Hnd].
  destruct (Hcols column) as (s & Hs & Hnum); [by left|].
  set (r := roll_mean (Z.to_nat window) s).
  set (t1 := setitem column r t).
  assert (Hy1 : is_Some (get_col "year" t1)).
  { unfold t1. destruct (decide (column = "year")) as [->|Hne].
    - rewrite get_col_setitem_eq. eauto.
    - by rewrite get_col_setitem_ne. }
  destruct Hy1 as [x Hx].
  rewrite moving_average_loop_cons, (moving_average_step_run _ _ _ _ _ Ht).
  unfold step_outcome, getitem. rewrite Hs, (rolling_mean_Ok _ _ Hw Hnum).
  simpl. fold r. fold t1. rewrite Hx.
  apply (IH _ t1); [apply lookup_insert_eq|eauto|done| |done].
  intros c Hc. destruct (Hcols c) as (s' & ? & ?); [by right|].
  exists s'. unfold t1. rewrite get_col_setitem_ne; [done|].
  by intros ->.
Qed.

(** X7: with a window that is not negative and fits a 64-bit integer, a
    rectangular table with distinct labels that has a "year" column of
    numbers, and distinct listed columns that are columns of numbers of
    the table, the call returns without error. *)
Theorem plot_moving_averages_completes
    (w : world) (df : loc) (t : DataFrame) (columns : list string)
    (window : Z) (title_ xlabel_ ylabel_ : string) :
  objects w !! df = Some t → rectangular t → NoDup (labels t) →
  (∃ x, get_col "year" t = Some x ∧ numeric x) →
  NoDup columns →
  (∀ c, c ∈ columns → ∃ s, get_col c t = Some s ∧ numeric s) →
  0 ≤ window < 2 ^ 63 →
  ∃ w', plot_moving_averages df columns window title_ xlabel_ ylabel_ w
        = (Ok (), w').
Proof.
  intros Ht _ _ (x & Hx & _) Hnd Hcols Hw. rewrite plot_moving_averages_run.
  destruct (moving_average_loop_total df window columns w t Ht) as [w' ->];
    [by eauto|done..|].
  by eexists.
Qed.

End Completes.

Section Completes_samples.
#[local] Existing Instance exact64.

Lemma plot_moving_averages_completes_witness :
  ∃ w', plot_moving_averages 0%nat ["england"] 2
          "Rising Temperature" "Year" "Mean Temperature" session
        = (Ok (), w').
Proof.
  apply (plot_moving_averages_completes session 0%nat climate ["england"] 2).
  - reflexivity.
  - unfold rectangular, climate. repeat constructor.
  - apply (bool_decide_unpack _). vm_compute. exact I.
  - eexists. split; [reflexivity|]. unfold numeric. repeat constructor.
  - apply NoDup_singleton.
  - intros c ->%list_elem_of_singleton. eexists. split; [reflexivity|].
    unfold numeric. repeat constructor.
  - lia.
Defined.

End Completes_samples.

(** ** main *)

Section Main.
Context {F64 : Float64}.

Lemma bind_Ok {A B} (m : M A) (k : A → M B) w a w' :
  m w = (Ok a, w') → (m ≫= k) w = k a w'.
Proof. intros H. unfold mbind, M_bind. by rewrite H. Qed.

Lemma bind_Raise {A B} (m : M A) (k : A → M B) w e w' :
  m w = (Raise e, w') → (m ≫= k) w = (Raise e, w').
Proof. intros H. unfold mbind, M_bind. by rewrite H. Qed.

Lemma zip_url_list_fst : (zip url_list column_names).*1 = url_list.
Proof. reflexivity. Qed.

Lemma zip_url_list_snd : (zip url_list column_names).*2 = column_names.
Proof. reflexivity. Qed.

(** X17: when one of the four climate sources cannot be read, or lacks
    its "year" or "ann" column, main raises before anything is drawn and
    before the estates file is looked at: the state is left as it was. *)
Theorem main_aborts_on_bad_source
    (read_url read_file : string → result DataFrame)
    (strptime : string → value → option datetime)
    (w : world) (url : string) :
  url ∈ url_list →
  (∀ t, read_url url = Ok t →
        get_col "year" t = None ∨ get_col "ann" t = None) →
  ∃ e, main read_url read_file strptime w = (Raise e, w).
Proof.
  intros Hurl Hbad.
  assert (∃ e, merge_climate_data read_url url_list column_names = Raise e)
    as [e He].
  { unfold merge_climate_data, mbind, result_bind.
    destruct (load_sources read_url (zip url_list column_names))
      as [dfs|e] eqn:Hload; [|by eauto].
    exfalso. apply load_sources_inv in Hload.
    rewrite <- zip_url_list_fst in Hurl.
    apply list_elem_of_fmap in Hurl as (p & -> & Hp).
    apply list_elem_of_lookup in Hp as [i Hi].
    destruct (Forall2_lookup_l _ _ _ _ _ Hload Hi)
      as (df & _ & t & ys & vs & Ht & Hys & Hvs & _).
    destruct (Hbad t Ht); congruence. }
  exists e. unfold main. apply bind_Raise. unfold lift. by rewrite He.
Qed.

Lemma aligned_numeric K s ys vs : aligned K s ys vs → numeric vs → numeric s.
Proof.
  intros [Hlen Hrows] Hnum. unfold numeric in *.
  rewrite Forall_lookup in Hnum. apply Forall_lookup. intros r v Hv.
  destruct (lookup_lt_is_Some_2 K r) as [y Hy];
    [rewrite <- Hlen; by eapply lookup_lt_Some|].
  destruct (Hrows r y v Hy Hv) as (j & _ & Hj). by apply (Hnum j).
Qed.

(** X18: when the four climate sources are read as tables with distinct
    labels, each with a "year" column and an "ann" column of numbers of
    the same length, and the estates file is read as a table with distinct
    labels that has both of its columns, every date present in it matches
    day/month/year and at least one row has a marital status, main
    completes and has drawn, in this order: the four lines england,
    scotland, wales, northern against one common year axis, with title,
    axis labels, legend and show; the bar chart; the pie chart. *)
Theorem main_charts
    (read_url read_file : string → result DataFrame)
    (strptime : string → value → option datetime)
    (w : world) (data : DataFrame) (dates status : Series) :
  (∀ url, url ∈ url_list →
     ∃ t ys vs, read_url url = Ok t ∧ NoDup (labels t)
                ∧ get_col "year" t = Some ys
                ∧ get_col "ann" t = Some vs ∧ length ys = length vs
                ∧ numeric ys ∧ numeric vs) →
  read_file "UnclaimedEstatesList.csv" = Ok data → NoDup (labels data) →
  get_col "Date of Death" data = Some dates →
  get_col "Marital Status" data = Some status →
  (∀ v, v ∈ dates → isna v = false → is_Some (strptime "%d/%m/%Y" v)) →
  (∃ v, v ∈ status ∧ isna v = false) →
  ∃ w' years lines bar_years heights slices slice_labels,
    main read_url read_file strptime w = (Ok (), w')
    ∧ canvas w'
      = canvas w ++ lines
        ++ [title "Rising Temperature"; xlabel "Year";
            ylabel "Mean Temperature"; legend "upper left"; show]
        ++ [figure; bar bar_years heights; xlabel "Unclaimed Year";
            ylabel "Count"; title "Unclaimed House since 2000";
            xticks bar_years; tight_layout; show]
        ++ [figure; pie slices slice_labels;
            title "Distribution of Marital Status"; axis "equal"; show]
    ∧ Forall2 (λ c line, ∃ y, line = plot years y c) columns_to_plot lines.
Proof.
  intros Hsrc Hread _ Hdates Hstatus Hparse Hsome.
  (* the merge *)
  assert (NoDup (zip url_list column_names).*2
          ∧ "year" ∉ (zip url_list column_names).*2) as [Hnd Hyear].
  { rewrite zip_url_list_snd. unfold column_names. split.
    - repeat (apply NoDup_cons; split;
              [intros Hin;
               repeat (apply elem_of_cons in Hin as [Hin|Hin];
                       [discriminate|]);
               by apply elem_of_nil in Hin|]).
      apply NoDup_nil_2.
    - intros Hin.
      repeat (apply elem_of_cons in Hin as [Hin|Hin]; [discriminate|]).
      by apply elem_of_nil in Hin. }
  destruct (merge_climate_data_Ok read_url url_list column_names)
    as [out Hmerge]; [discriminate| |done|done|].
  { rewrite zip_url_list_fst. intros url Hurl.
    destruct (Hsrc url Hurl) as (t & ys & vs & Ht & _ & Hys & Hvs & _ & Hn & _).
    exists t, ys. rewrite Hvs. eauto. }
  destruct (merge_climate_data_frames read_url url_list column_names out
              Hmerge Hnd Hyear)
    as (K & out_cols & -> & Hlabels & Hal).
  set (merged := ("year", K) :: out_cols) in *.
  assert (Hcols : ∀ c, c ∈ columns_to_plot →
            ∃ s, get_col c merged = Some s ∧ numeric s).
  { intros c Hc.
    assert (∃ url, (url, c) ∈ zip url_list column_names) as [url Hp].
    { unfold columns_to_plot in Hc.
      repeat (apply elem_of_cons in Hc as [->|Hc];
              [eexists; cbn; eauto 6 using list_elem_of_here,
                                           list_elem_of_further|]).
      by apply elem_of_nil in Hc. }
    destruct (Hsrc url)
      as (t & ys & vs & Ht & _ & Hys & Hvs & Hlen & _ & Hnum).
    { rewrite <- zip_url_list_fst. apply list_elem_of_fmap.
      by exists (url, c). }
    assert (Hsource : source_of read_url (url, c) = (c, (ys, vs)))
      by (unfold source_of; simpl; by rewrite Ht, Hys, Hvs).
    destruct (Hal (url, c) Hp) as (s & Hs & Ha); [by rewrite Hsource|].
    rewrite Hsource in Ha. simpl in Hs, Ha.
    exists s. split; [|by eapply aligned_numeric].
    unfold merged. cbn [get_col]. rewrite decide_False; [done|].
    intros <-. unfold columns_to_plot in Hc.
    repeat (apply elem_of_cons in Hc as [Hc|Hc]; [discriminate|]).
    by apply elem_of_nil in Hc. }
  (* the line chart *)
  set (df := fresh (dom (objects w))).
  set (w1 := World (<[df := merged]> (objects w)) (canvas w)).
  assert (Hdf : objects w1 !! df = Some merged) by apply lookup_insert_eq.
  assert (Hplot : NoDup columns_to_plot).
  { unfold columns_to_plot.
    repeat (apply NoDup_cons; split;
            [intros Hin;
             repeat (apply elem_of_cons in Hin as [Hin|Hin]; [discriminate|]);
             by apply elem_of_nil in Hin|]).
    apply NoDup_nil_2. }
  destruct (moving_average_loop_total df 20 columns_to_plot w1 merged)
    as [w2 Hloop]; [done|by eexists|done|done|lia|].
  destruct (moving_average_loop_lines df 20 columns_to_plot w1 w2 merged K)
    as (lines & Hcanvas & Hlines); [done|done|done| |done|].
  { unfold columns_to_plot. intros Hin.
    repeat (apply elem_of_cons in Hin as [Hin|Hin]; [discriminate|]).
    by apply elem_of_nil in Hin. }
  (* the three calls in sequence *)
  eexists _, K, lines, _, _, _, _. split; [|split].
  - unfold main.
    erewrite bind_Ok by (unfold lift; by rewrite Hmerge).
    erewrite bind_Ok by reflexivity. fold df. fold w1.
    erewrite bind_Ok by (rewrite plot_moving_averages_run, Hloop; reflexivity).
    erewrite bind_Ok
      by (apply (plot_unclaimed_estates_run _ _ _ _ _ data dates);
          assumption).
    apply (plot_marital_status_distribution_run _ _ _ _ data status);
      [assumption..|].
    apply value_counts_nonempty. destruct Hsome as (v & Hv & Hna).
    exists (relabel (small_categories default_threshold (value_counts status))
              v).
    split; [by apply list_elem_of_fmap_2|].
    by rewrite relabel_isna_small.
  - cbn [canvas]. rewrite Hcanvas. cbn [canvas w1].
    by rewrite <- !app_assoc.
  - eapply Forall2_impl; [done|]. intros c line (s & r & _ & _ & ->). eauto.
Qed.

End Main.

Section Main_samples.
#[local] Existing Instance exact64.

Lemma main_aborts_on_bad_source_witness :
  ∃ e, main met_office disk sample_strptime blank = (Raise e, blank).
Proof.
  apply (main_aborts_on_bad_source met_office disk sample_strptime blank
           "https://www.metoffice.gov.uk/pub/data/weather/uk/climate/datasets/Tmean/date/Wales.txt").
  - right. left.
  - intros t Ht. vm_compute in Ht. discriminate.
Defined.

Lemma main_charts_witness :
  ∃ w' years lines bar_years heights slices slice_labels,
    main uk_climate disk sample_strptime blank = (Ok (), w')
    ∧ canvas w'
      = canvas blank ++ lines
        ++ [title "Rising Temperature"; xlabel "Year";
            ylabel "Mean Temperature"; legend "upper left"; show]
        ++ [figure; bar bar_years heights; xlabel "Unclaimed Year";
            ylabel "Count"; title "Unclaimed House since 2000";
            xticks bar_years; tight_layout; show]
        ++ [figure; pie slices slice_labels;
            title "Distribution of Marital Status"; axis "equal"; show]
    ∧ Forall2 (λ c line, ∃ y, line = plot years y c) columns_to_plot lines.
Proof.
  apply (main_charts uk_climate disk sample_strptime blank register
           [Str "03/02/2001"; Str "17/11/1999"; NaN;
            Str "25/12/2001"; Str "01/01/2000"]
           [Str "Single"; Str "Widow"; NaN; Str "Single"; Str "Single"]).
  - intros url Hurl. unfold url_list in Hurl.
    repeat (apply elem_of_cons in Hurl as [Hurl|Hurl];
            [subst url; eexists _, _, _;
             split; [vm_compute; reflexivity|];
             split; [apply (bool_decide_unpack _); vm_compute; exact I|];
             split; [reflexivity|]; split; [reflexivity|];
             split; [reflexivity|];
             split; unfold numeric; repeat constructor|]).
    by apply elem_of_nil in Hurl.
  - reflexivity.
  - apply (bool_decide_unpack _). vm_compute. exact I.
  - reflexivity.
  - reflexivity.
  - intros v Hv Hna. unfold is_Some.
    repeat (apply elem_of_cons in Hv as [Hv|Hv];
            [subst v; first [discriminate Hna | vm_compute; eauto]|]).
    by apply elem_of_nil in Hv.
  - exists (Str "Single"). split; [left|reflexivity].
Defined.

End Main_samples.

(** ** plot_moving_averages: other tables *)

Section OtherTables.
Context {F64 : Float64}.

Lemma step_outcome_other df df' window column w t :
  df ≠ df' →
  objects (step_outcome df window column w t).2 !! df' = objects w !! df'.
Proof.
  intros Hne. unfold step_outcome.
  destruct (getitem column t) as [s|]; [|done].
  destruct (rolling_mean window s) as [r|]; [|done].
  destruct (getitem "year" _); simpl; by rewrite lookup_insert_ne.
Qed.

Lemma moving_average_loop_other df df' window columns w :
  df ≠ df' →
  objects (moving_average_loop df window columns w).2 !! df'
  = objects w !! df'.
Proof.
  intros Hne. revert w. induction columns as [|column rest IH]; intros w;
    [done|].
  rewrite moving_average_loop_cons.
  destruct (objects w !! df) as [t|] eqn:Ht.
  - rewrite (moving_average_step_run _ _ _ _ _ Ht).
    pose proof (step_outcome_other df df' window column w t Hne) as Hstep.
    destruct (step_outcome df window column w t) as [[[]|e] w1];
      simpl in Hstep; [by rewrite IH|done].
  - by rewrite (moving_average_step_dangling _ _ _ _ Ht).
Qed.

(** X19: the call changes no table other than the one it is given: every
    other object of the store is the same afterwards, whether the call
    returns or raises. *)
Theorem plot_moving_averages_other_tables
    (w : world) (df df' : loc) (columns : list string) (window : Z)
    (title_ xlabel_ ylabel_ : string) :
  df ≠ df' →
  objects (plot_moving_averages df columns window
             title_ xlabel_ ylabel_ w).2 !! df'
  = objects w !! df'.
Proof.
  intros Hne. rewrite plot_moving_averages_run.
  rewrite <- (moving_average_loop_other df df' window columns w Hne).
  by destruct (moving_average_loop df window columns w) as [[[]|e] w1].
Qed.

End OtherTables.

Section OtherTables_samples.
#[local] Existing Instance exact64.

Lemma plot_moving_averages_other_tables_witness :
  objects (plot_moving_averages 0%nat ["england"] 2
             "Rising Temperature" "Year" "Mean Temperature"
             (World (<[1%nat := climate]> (objects session)) [])).2 !! 1%nat
  = objects (World (<[1%nat := climate]> (objects session)) []) !! 1%nat.
Proof.
  apply (plot_moving_averages_other_tables
           (World (<[1%nat := climate]> (objects session)) []) 0%nat 1%nat).
  lia.
Defined.

End OtherTables_samples.
